(** * StreamGit-Audio: the proxy routes and the server manager of
      [access_audio.py], embedded and checked against their specification.

    The file follows the layout of the Python module:
    - strings and paths ([str.lstrip], [str.lower], [str.endswith],
      [os.path.basename], [os.path.join]);
    - decoded JSON values, exceptions and HTTP messages;
    - the effects of the two proxy routes (remote GETs, the cache directory)
      as a state-and-exception monad;
    - [download_audio_from_github], [get_audio_file], [list_audio_files];
    - [ServerManager]: [find_available_port], [start_server],
      [is_server_running];
    - the parts of [main] around the manager, the select box and the paths
      of its URLs;
    - the properties. *)

From Stdlib Require Import ZArith Ascii String List Lia.
From stdpp Require Import base option list strings gmap pretty.

Local Open Scope string_scope.
Local Open Scope list_scope.
Local Open Scope Z_scope.

(** ** Strings and paths *)

Definition slash : ascii := "/"%char.

(** [s.lstrip('/')]: drop every leading slash. *)
Fixpoint lstrip (c : ascii) (s : string) : string :=
  match s with
  | String a rest => if Ascii.eqb a c then lstrip c rest else s
  | EmptyString => EmptyString
  end.

(** [s.rfind(c)]: the highest index of [c] in [s], or [-1]. *)
Fixpoint rfind (c : ascii) (s : string) : Z :=
  match s with
  | EmptyString => -1
  | String a rest =>
      let i := rfind c rest in
      if 0 <=? i then i + 1
      else if Ascii.eqb a c then 0 else -1
  end.

(** The slice [s[i:]] for [0 <= i]. *)
Fixpoint slice_from (i : nat) (s : string) : string :=
  match i, s with
  | O, _ => s
  | S i', String _ rest => slice_from i' rest
  | S _, EmptyString => EmptyString
  end.

(** [posixpath.basename]: [i = p.rfind('/') + 1; return p[i:]]. *)
Definition basename (p : string) : string :=
  let i := rfind slash p + 1 in
  slice_from (Z.to_nat i) p.

Definition startswith (s pre : string) : bool := String.prefix pre s.

(** [s.endswith(suf)] for one suffix. *)
Definition endswith (s suf : string) : bool :=
  (String.length suf <=? String.length s)%nat
  && String.eqb (slice_from (String.length s - String.length suf) s) suf.

(** [s.endswith(t)] for a tuple [t] of suffixes. *)
Definition endswith_any (s : string) (sufs : list string) : bool :=
  existsb (endswith s) sufs.

(** [posixpath.join(a, b)] for two components. *)
Definition os_path_join (a b : string) : string :=
  if startswith b "/" then b
  else if String.eqb a "" || endswith a "/" then a +:+ b
  else a +:+ "/" +:+ b.

(** [str.lower] on the letters that matter to the suffix test: the names are
    held as byte strings, and no character outside [A-Z] lower-cases to a
    letter of the supported suffixes. *)
Definition lower_ascii (a : ascii) : ascii :=
  let n := nat_of_ascii a in
  if ((65 <=? n) && (n <=? 90))%nat then ascii_of_nat (n + 32) else a.

Fixpoint lower (s : string) : string :=
  match s with
  | EmptyString => EmptyString
  | String a rest => String (lower_ascii a) (lower rest)
  end.

(** ** Configuration *)

Definition AUDIO_CACHE_DIR : string := "audio_cache".
Definition SUPPORTED_FORMATS : list string :=
  [".mp3"; ".wav"; ".ogg"; ".flac"; ".m4a"].
(** Seconds to wait for the server to start. *)
Definition SERVER_START_TIMEOUT : nat := 5.
(** The same on the millisecond clock of the manager's model. *)
Definition SERVER_START_TIMEOUT_MS : nat := SERVER_START_TIMEOUT * 1000.

(** [GITHUB_RAW_BASE_URL.format(owner=…, repo=…, branch=…, file_path=…)] *)
Definition GITHUB_RAW_BASE_URL (owner repo branch file_path : string) : string :=
  "https://raw.githubusercontent.com/" +:+ owner +:+ "/" +:+ repo +:+ "/"
    +:+ branch +:+ "/" +:+ file_path.

(** [GITHUB_API_BASE_URL.format(owner=…, repo=…, path=…, branch=…)] *)
Definition GITHUB_API_BASE_URL (owner repo path branch : string) : string :=
  "https://api.github.com/repos/" +:+ owner +:+ "/" +:+ repo +:+ "/contents/"
    +:+ path +:+ "?ref=" +:+ branch.

(** ** Decoded JSON, as [response.json()] hands it to the route *)

Local Set Warnings "-register-all".

Inductive json : Type :=
  | JNull
  | JBool (b : bool)
  | JInt (n : Z)
  | JFloat (literal : string)
  | JStr (s : string)
  | JList (items : list json)
  | JDict (fields : list (string * json)).

(** [d.get(key)] on a decoded object: the value bound to [key], if any. *)
Fixpoint dict_get (key : string) (fields : list (string * json)) : option json :=
  match fields with
  | [] => None
  | (k, v) :: rest => if String.eqb k key then Some v else dict_get key rest
  end.

(** [type(v).__name__] *)
Definition py_type_name (v : json) : string :=
  match v with
  | JNull => "NoneType"
  | JBool _ => "bool"
  | JInt _ => "int"
  | JFloat _ => "float"
  | JStr _ => "str"
  | JList _ => "list"
  | JDict _ => "dict"
  end.

(** ** Exceptions *)

Inductive exn : Type :=
  (* requests.exceptions: RequestException stands for the transport level
     ones (ConnectionError, Timeout, ...); HTTPError and JSONDecodeError are
     its subclasses raised by raise_for_status and json *)
  | RequestException (msg : string)
  | HTTPError (msg : string)
  | JSONDecodeError (msg : string)
  (* builtins *)
  | OSError (msg : string)
  | AttributeError (msg : string)
  | KeyError (key : string)
  | TypeError (msg : string)
  | ValueError (msg : string)
  | RuntimeError (msg : string)
  | OverflowError (msg : string)
  (* fastapi.HTTPException(status_code, detail) *)
  | HTTPException (status : Z) (detail : string).

Definition is_RequestException (e : exn) : bool :=
  match e with
  | RequestException _ | HTTPError _ | JSONDecodeError _ => true
  | _ => false
  end.

(** [except OSError]: [RequestException] derives from [IOError]. *)
Definition is_OSError (e : exn) : bool :=
  match e with
  | OSError _ => true
  | _ => is_RequestException e
  end.

(** [except Exception]: every exception of the model is one. *)
Definition is_Exception (e : exn) : bool := true.

(** What [str(e)] is for a [fastapi.HTTPException] built with keyword
    arguments depends on the installed Starlette: from 0.29 on its
    [__str__] gives ["{status_code}: {detail}"]; before, nothing overrides
    [Exception.__str__] and the exception has no positional argument, so
    [str(e)] is the empty string. *)
Inductive StarletteStr : Type :=
  | str_status_detail
  | str_empty.

Definition str_HTTPException (v : StarletteStr) (status : Z) (detail : string)
    : string :=
  match v with
  | str_status_detail => pretty status +:+ ": " +:+ detail
  | str_empty => ""
  end.

(** [str(e)], under the installed Starlette [v]. *)
Definition str_exn (v : StarletteStr) (e : exn) : string :=
  match e with
  | RequestException m | HTTPError m | JSONDecodeError m => m
  | OSError m | AttributeError m | TypeError m | RuntimeError m => m
  | ValueError m => m
  | OverflowError m => m
  | KeyError k => "'" +:+ k +:+ "'"
  | HTTPException st d => str_HTTPException v st d
  end.

(** ** HTTP messages *)

(** What [requests.get] returns when it returns. [json_body] is the body
    decoded, or the decoder's message when the body is not JSON. *)
Record Response : Type := mkResponse {
  status_code : Z;
  reason : string;
  url : string;
  content : list Byte.byte;
  json_body : string + json
}.

(** [Response.raise_for_status]: [HTTPError] for 4xx and 5xx, nothing
    otherwise. *)
Definition raise_for_status (r : Response) : option exn :=
  if (400 <=? status_code r) && (status_code r <? 500) then
    Some (HTTPError (pretty (status_code r) +:+ " Client Error: " +:+ reason r
                       +:+ " for url: " +:+ url r))
  else if (500 <=? status_code r) && (status_code r <? 600) then
    Some (HTTPError (pretty (status_code r) +:+ " Server Error: " +:+ reason r
                       +:+ " for url: " +:+ url r))
  else None.

(** [Response.json]: the decoded body, or the decoder's exception.  From
    requests 2.27 on that is [requests.exceptions.JSONDecodeError], a
    [RequestException]; before, it is a plain [ValueError].
    [own_error] tells which. *)
Definition response_json (own_error : bool) (r : Response) : exn + json :=
  match json_body r with
  | inr j => inr j
  | inl msg => inl (if own_error then JSONDecodeError msg else ValueError msg)
  end.

(** What a route returns.  A [FileResponse] holds the path, not the bytes:
    the file is read when the response is sent. *)
Inductive Body : Type :=
  | FileBody (path : string)
  | JsonBody (j : json).

Record HttpResponse : Type := mkHttpResponse {
  http_status : Z;
  http_body : Body
}.

Definition FileResponse (path : string) : HttpResponse :=
  mkHttpResponse 200 (FileBody path).

Definition JSONResponse (status : Z) (content : json) : HttpResponse :=
  mkHttpResponse status (JsonBody content).

Definition error_body (message : string) : json :=
  JDict [("error", JStr message)].

(** ** The effects of the proxy routes *)

(** How [with open(path, 'wb') as f: f.write(data)] fails, when it does: at
    [open], which leaves the disk as it is; or in the write or the flush at
    close, after [open] has created or truncated the file, which then holds
    the first [written] bytes of the data, none when [written] is 0. Either
    way an [OSError] with the message is raised. *)
Inductive WriteFailure : Type :=
  | OpenFails (msg : string)
  | WriteFails (msg : string) (written : nat).

Definition failure_message (f : WriteFailure) : string :=
  match f with
  | OpenFails msg => msg
  | WriteFails msg _ => msg
  end.

(** The outside of the proxy: the remote hosts, the operating system and the
    installed libraries.
    [requests_get n u] answers the GET of [u] issued after [n] earlier GETs:
    a transport failure with its message, or a response.
    [open_wb p] is how writing the file [p] fails, if it does.
    [starlette] is what [str] makes of an [HTTPException];
    [json_error_is_RequestException] holds from requests 2.27 on. *)
Record Outside : Type := mkOutside {
  requests_get : nat -> string -> string + Response;
  open_wb : string -> option WriteFailure;
  starlette : StarletteStr;
  json_error_is_RequestException : bool
}.

(** What the routes change: the files of the cache directory, by path, and
    the URLs requested so far, oldest first. *)
Record World : Type := mkWorld {
  fs : gmap string (list Byte.byte);
  requested : list string
}.

(** Code that changes a state [S] and may raise. *)
Definition Eff (S A : Type) : Type := S -> S * (exn + A).

Definition ret {S A} (a : A) : Eff S A := fun w => (w, inr a).
Definition raise {S A} (e : exn) : Eff S A := fun w => (w, inl e).
Definition bind {S A B} (m : Eff S A) (k : A -> Eff S B) : Eff S B :=
  fun w => match m w with
           | (w', inr a) => k a w'
           | (w', inl e) => (w', inl e)
           end.
Definition lift {S A} (r : exn + A) : Eff S A := fun w => (w, r).

(** [try: body  except C as e: handler e] *)
Definition try_except {S A} (body : Eff S A) (C : exn -> bool)
    (handler : exn -> Eff S A) : Eff S A :=
  fun w => match body w with
           | (w', inl e) => if C e then handler e w' else (w', inl e)
           | r => r
           end.

Declare Scope eff_scope.
Delimit Scope eff_scope with eff.
Notation "'let*' x ':=' m 'in' k" := (bind m (fun x => k))
  (at level 10, x name, m at level 100, k at level 200) : eff_scope.

(** Exceptions without effects, for the pure parts. *)
Definition bind_exn {A B} (r : exn + A) (k : A -> exn + B) : exn + B :=
  match r with
  | inr a => k a
  | inl e => inl e
  end.

(** [requests.get(url)] *)
Definition http_get (out : Outside) (u : string) : Eff World Response :=
  fun w =>
    let w' := mkWorld (fs w) (requested w ++ [u]) in
    match requests_get out (length (requested w)) u with
    | inl msg => (w', inl (RequestException msg))
    | inr r => (w', inr r)
    end.

(** [response.raise_for_status()] *)
Definition check_status {S} (r : Response) : Eff S unit :=
  match raise_for_status r with
  | Some e => raise e
  | None => ret tt
  end.

(** [with open(path, 'wb') as f: f.write(data)] *)
Definition write_file (out : Outside) (path : string) (data : list Byte.byte)
    : Eff World unit :=
  fun w =>
    match open_wb out path with
    | Some (OpenFails msg) => (w, inl (OSError msg))
    | Some (WriteFails msg written) =>
        (mkWorld (<[path := take written data]> (fs w)) (requested w),
         inl (OSError msg))
    | None => (mkWorld (<[path := data]> (fs w)) (requested w), inr tt)
    end.

(** ** The proxy *)

Local Open Scope eff_scope.

Definition download_audio_from_github (out : Outside)
    (owner repo branch file_path : string) : Eff World string :=
  let audio_url :=
    GITHUB_RAW_BASE_URL owner repo branch (lstrip slash file_path) in
  let local_path := os_path_join AUDIO_CACHE_DIR (basename file_path) in
  try_except
    (let* response := http_get out audio_url in
     let* _ := check_status response in
     let* _ := write_file out local_path (content response) in
     ret local_path)
    is_RequestException
    (fun e => raise (HTTPException 404
                       ("Audio file not found: "
                          +:+ str_exn (starlette out) e))).

Definition get_audio_file (out : Outside)
    (owner repo branch file_path : string) : Eff World HttpResponse :=
  try_except
    (let* local_path :=
       download_audio_from_github out owner repo branch file_path in
     ret (FileResponse local_path))
    is_Exception
    (fun e => ret (JSONResponse 500 (error_body (str_exn (starlette out) e)))).

(** [v == s] for a value [v] that [d.get] returned and a [str] [s]. *)
Definition py_eq_str (v : option json) (s : string) : bool :=
  match v with
  | Some (JStr x) => String.eqb x s
  | _ => false
  end.

(** The condition of the comprehension:
    [isinstance(item, dict) and item.get('type') == 'file' and
     item.get('name', '').lower().endswith(SUPPORTED_FORMATS)]. *)
Definition is_audio_item (item : json) : exn + bool :=
  match item with
  | JDict d =>
      if py_eq_str (dict_get "type" d) "file" then
        match default (JStr "") (dict_get "name" d) with
        | JStr name => inr (endswith_any (lower name) SUPPORTED_FORMATS)
        | v => inl (AttributeError
                      ("'" +:+ py_type_name v
                         +:+ "' object has no attribute 'lower'"))
        end
      else inr false
  | _ => inr false
  end.

(** [item[key]] *)
Definition getitem (item : json) (key : string) : exn + json :=
  match item with
  | JDict d =>
      match dict_get key d with
      | Some v => inr v
      | None => inl (KeyError key)
      end
  | v => inl (TypeError ("'" +:+ py_type_name v
                           +:+ "' object is not subscriptable"))
  end.

(** [[item['name'] for item in contents if ...]] *)
Fixpoint audio_files_of (contents : list json) : exn + list json :=
  match contents with
  | [] => inr []
  | item :: rest =>
      bind_exn (is_audio_item item) (fun keep =>
        if keep : bool then
          bind_exn (getitem item "name") (fun name =>
            bind_exn (audio_files_of rest) (fun names => inr (name :: names)))
        else audio_files_of rest)
  end.

Definition list_audio_files (out : Outside)
    (owner repo branch path : string) : Eff World HttpResponse :=
  let api_url := GITHUB_API_BASE_URL owner repo (lstrip slash path) branch in
  try_except
    (let* response := http_get out api_url in
     let* _ := check_status response in
     let* contents :=
       lift (response_json (json_error_is_RequestException out) response) in
     match contents with
     | JList items =>
         let* audio_files := lift (audio_files_of items) in
         ret (JSONResponse 200 (JDict [("audio_files", JList audio_files)]))
     | _ =>
         ret (JSONResponse 400 (error_body "Path is not a directory"))
     end)
    is_RequestException
    (fun e => ret (JSONResponse 404 (error_body (str_exn (starlette out) e)))).

(** [GET /health] *)
Definition health_check : HttpResponse :=
  JSONResponse 200 (JDict [("status", JStr "ok")]).

(** What the client receives once the server sends a route's response: the
    status with the JSON body, or with the bytes that the file holds then. *)
Inductive Payload : Type :=
  | Bytes (data : list Byte.byte)
  | Json (j : json).

Definition send (w : World) (r : HttpResponse) : exn + (Z * Payload) :=
  match http_body r with
  | JsonBody j => inr (http_status r, Json j)
  | FileBody p =>
      match fs w !! p with
      | Some data => inr (http_status r, Bytes data)
      | None => inl (RuntimeError ("File at path " +:+ p +:+ " does not exist."))
      end
  end.

(** A whole request: run the route, then send what it returned. *)
Definition serve (route : Eff World HttpResponse) (w : World)
    : World * (exn + (Z * Payload)) :=
  match route w with
  | (w', inr r) => (w', send w' r)
  | (w', inl e) => (w', inl e)
  end.

(** ** ServerManager *)

Record ServerManager : Type := mkServerManager {
  port : option Z;
  server_thread : option nat;
  server_started : bool
}.

(** [ServerManager.__init__] *)
Definition ServerManager_init : ServerManager :=
  mkServerManager None None false.

(** What the manager does to the host, in order. *)
Inductive Event : Type :=
  | EvBind (p : Z)
  | EvThreadStart (thread : nat) (p : option Z)
  | EvGet (u : string) (timeout_ms : option nat)
  | EvSleep (ms : nat).

(** The host of the manager.
    [bind_error p] is the message of the [OSError] that
    [s.bind(('localhost', p))] raises for a port [p] of the 16-bit range, if
    it does; [is_alive t] is [t.is_alive()] for the thread started [t]-th;
    [local_get now u timeout] answers a GET of [u] issued at the clock
    reading [now] (in milliseconds): the status or no response at all, and
    the time the call takes beyond its first millisecond. *)
Record Host : Type := mkHost {
  bind_error : Z -> option string;
  is_alive : nat -> bool;
  local_get : nat -> string -> option nat -> option Z * nat
}.

(** The process around the manager object. *)
Record Proc : Type := mkProc {
  self : ServerManager;
  now : nat;
  threads : nat;
  trace : list Event
}.

Definition emit (ev : Event) : Eff Proc unit :=
  fun s => (mkProc (self s) (now s) (threads s) (trace s ++ [ev]), inr tt).

Definition get_self {A} (field : ServerManager -> A) : Eff Proc A :=
  fun s => (s, inr (field (self s))).

Definition set_self (m : ServerManager) : Eff Proc unit :=
  fun s => (mkProc m (now s) (threads s) (trace s), inr tt).

Definition set_port (p : option Z) : Eff Proc unit :=
  fun s => set_self (mkServerManager p (server_thread (self s))
                       (server_started (self s))) s.

Definition set_server_thread (t : option nat) : Eff Proc unit :=
  fun s => set_self (mkServerManager (port (self s)) t
                       (server_started (self s))) s.

Definition set_server_started (b : bool) : Eff Proc unit :=
  fun s => set_self (mkServerManager (port (self s)) (server_thread (self s))
                       b) s.

(** [time.time()] *)
Definition time_time : Eff Proc nat := fun s => (s, inr (now s)).

Definition advance (ms : nat) : Eff Proc unit :=
  fun s => (mkProc (self s) (now s + ms) (threads s) (trace s), inr tt).

(** [time.sleep(ms / 1000)] *)
Definition time_sleep (ms : nat) : Eff Proc unit :=
  let* _ := emit (EvSleep ms) in advance ms.

(** [with socket.socket(...) as s: s.bind(('localhost', p))]: CPython
    refuses a port outside [0..65535] with [OverflowError]; the host answers
    for the others. *)
Definition socket_bind (host : Host) (p : Z) : Eff Proc unit :=
  let* _ := emit (EvBind p) in
  if (0 <=? p) && (p <=? 65535) then
    match bind_error host p with
    | Some msg => raise (OSError msg)
    | None => ret tt
    end
  else raise (OverflowError "bind(): port must be 0-65535.").

(** [requests.get(u, timeout=…)] against the local service; any failure is a
    [RequestException]. *)
Definition requests_get_local (host : Host) (u : string)
    (timeout_ms : option nat) : Eff Proc Z :=
  let* _ := emit (EvGet u timeout_ms) in
  let* t := time_time in
  let answer := local_get host t u timeout_ms in
  let* _ := advance (S (snd answer)) in
  match fst answer with
  | Some status => ret status
  | None => raise (RequestException "connection failed")
  end.

(** [threading.Thread(target=run_fastapi, daemon=True)]: the new thread is
    known by its rank among the threads of the process. *)
Definition Thread_new : Eff Proc nat :=
  fun s => (mkProc (self s) (now s) (S (threads s)) (trace s), inr (threads s)).

(** [t.start()]: [run_fastapi] reads [self.port] when the thread runs it. *)
Definition Thread_start (t : nat) : Eff Proc unit :=
  fun s => emit (EvThreadStart t (port (self s))) s.

(** [t and t.is_alive()] *)
Definition thread_is_alive (host : Host) (t : option nat) : bool :=
  match t with
  | Some th => is_alive host th
  | None => false
  end.

(** [range(a, b)]: [a], [a + 1], …, up to [b] excluded. *)
Fixpoint range_from (a : Z) (count : nat) : list Z :=
  match count with
  | O => []
  | S count' => a :: range_from (a + 1) count'
  end.

Definition py_range (a b : Z) : list Z := range_from a (Z.to_nat (b - a)).

(** [str(self.port)] inside the f-strings. *)
Definition str_port (p : option Z) : string :=
  match p with
  | Some n => pretty n
  | None => "None"
  end.

Definition health_url (p : option Z) : string :=
  "http://localhost:" +:+ str_port p +:+ "/health".

(** The [for] loop of [find_available_port]: [Some p] when it returns [p],
    [None] when the range is used up. *)
Fixpoint try_ports (host : Host) (ports : list Z) : Eff Proc (option Z) :=
  match ports with
  | [] => ret None
  | p :: rest =>
      try_except
        (let* _ := socket_bind host p in ret (Some p))
        is_OSError
        (fun _ => try_ports host rest)
  end.

Definition find_available_port (host : Host) (start_port : Z) : Eff Proc Z :=
  let* found := try_ports host (py_range start_port (start_port + 50)) in
  match found with
  | Some p => ret p
  | None =>
      raise (OSError ("No available port found in range " +:+ pretty start_port
                        +:+ "-" +:+ pretty (start_port + 49)))
  end.

(** The truth value of [self.port]: [None] and [0] are false. *)
Definition truthy_port (p : option Z) : bool :=
  match p with
  | Some n => negb (n =? 0)
  | None => false
  end.

(** One turn of the readiness loop of [start_server]: the [try] statement. *)
Definition poll_health (host : Host) : Eff Proc unit :=
  try_except
    (let* p := get_self port in
     let* status := requests_get_local host (health_url p) None in
     if status =? 200 then set_server_started true else ret tt)
    (fun _ => true)
    (fun _ => time_sleep 100).

(** The readiness loop of [start_server].  Every turn takes at least a
    millisecond, so [SERVER_START_TIMEOUT_MS] turns are never used up. *)
Fixpoint wait_until_started (turns : nat) (host : Host) (start_time : nat)
    : Eff Proc unit :=
  match turns with
  | O => ret tt
  | S turns' =>
      let* started := get_self server_started in
      let* t := time_time in
      if negb started && (t - start_time <? SERVER_START_TIMEOUT_MS)%nat then
        let* _ := poll_health host in
        wait_until_started turns' host start_time
      else ret tt
  end.

Definition start_server (host : Host) : Eff Proc unit :=
  let* t := get_self server_thread in
  if thread_is_alive host t then ret tt
  else
    let* p := find_available_port host 8000 in
    let* _ := set_port (Some p) in
    let* _ := set_server_started false in
    let* th := Thread_new in
    let* _ := set_server_thread (Some th) in
    let* _ := Thread_start th in
    let* start_time := time_time in
    wait_until_started SERVER_START_TIMEOUT_MS host start_time.

Definition is_server_running (host : Host) : Eff Proc bool :=
  let* p := get_self port in
  if negb (truthy_port p) then ret false
  else
    try_except
      (let* status := requests_get_local host (health_url p) (Some 1000%nat) in
       ret (status =? 200))
      (fun _ => true)
      (fun _ => ret false).

(** ** The listing, in the words of the specification *)

(** The name of an entry "whose type is file and whose lower-cased name ends
    with one of the supported audio extensions". *)
Definition spec_audio_name (item : json) : option string :=
  match item with
  | JDict d =>
      match dict_get "type" d, dict_get "name" d with
      | Some (JStr t), Some (JStr name) =>
          if String.eqb t "file"
             && existsb (endswith (lower name))
                  [".mp3"; ".wav"; ".ogg"; ".flac"; ".m4a"]
          then Some name else None
      | _, _ => None
      end
  | _ => None
  end.

(** The names of those entries, in the order of the listing. *)
Definition spec_audio_names (contents : list json) : list string :=
  omap spec_audio_name contents.

(** An entry of a listing as the remote API sends it: if it is an object of
    type "file" that has a name, the name is a string. *)
Definition file_name_is_text (item : json) : bool :=
  match item with
  | JDict d =>
      if py_eq_str (dict_get "type" d) "file" then
        match dict_get "name" d with
        | Some (JStr _) | None => true
        | Some _ => false
        end
      else true
  | _ => true
  end.

(** The entries that the filter is said to skip: not an object, or an object
    without a name. *)
Definition malformed_entry (item : json) : bool :=
  match item with
  | JDict d =>
      match dict_get "name" d with
      | None => true
      | Some _ => false
      end
  | _ => true
  end.

(** [sub in s] *)
Definition includes (sub s : string) : Prop :=
  exists pre post, s = pre +:+ sub +:+ post.

(** ** Sample remotes and worlds *)

Definition raw_a : string := "https://raw.githubusercontent.com/o/r/main/a/x.mp3".
Definition raw_b : string := "https://raw.githubusercontent.com/o/r/main/b/x.mp3".
Definition api_a : string := "https://api.github.com/repos/o/r/contents/a?ref=main".

Definition bytes_a : list Byte.byte := [Byte.x49; Byte.x44; Byte.x33; Byte.x0a].
Definition bytes_b : list Byte.byte := [Byte.x4f; Byte.x67; Byte.x67; Byte.x53].
Definition bytes_old : list Byte.byte := [Byte.x00].

Definition not_json : string + json :=
  inl "Expecting value: line 1 column 1 (char 0)".

Definition entry (name type : string) : json :=
  JDict [("name", JStr name); ("type", JStr type)].

(** A remote with [a/x.mp3] and [b/x.mp3], which never change, and a disk
    that takes every write; the libraries are recent ones. *)
Definition two_dirs : Outside :=
  mkOutside
    (fun _ u =>
       if String.eqb u raw_a then inr (mkResponse 200 "OK" u bytes_a not_json)
       else if String.eqb u raw_b then inr (mkResponse 200 "OK" u bytes_b not_json)
       else inr (mkResponse 404 "Not Found" u [] not_json))
    (fun _ => None) str_status_detail true.

(** The same remote and disk under a Starlette that has no [__str__] for
    [HTTPException]. *)
Definition two_dirs_older_starlette : Outside :=
  mkOutside (requests_get two_dirs) (open_wb two_dirs) str_empty true.

(** The same remote with a disk that is full: [open] creates or truncates
    the file, and the write fails before a byte of it is stored. *)
Definition two_dirs_full_disk : Outside :=
  mkOutside (requests_get two_dirs)
    (fun _ => Some (WriteFails "[Errno 28] No space left on device" 0))
    str_status_detail true.

(** A remote whose answers are 200 and not JSON, under a requests before
    2.27, whose [json] raises a plain [ValueError]. *)
Definition not_json_older_requests : Outside :=
  mkOutside (fun _ u => inr (mkResponse 200 "OK" u bytes_a not_json))
    (fun _ => None) str_status_detail false.

(** A remote that answers every GET with 300 and no [Location]: the answer
    is final and its body, four bytes that are not JSON, is kept. *)
Definition multiple_choices_file : Outside :=
  mkOutside
    (fun _ u => inr (mkResponse 300 "Multiple Choices" u bytes_a not_json))
    (fun _ => None) str_status_detail true.

(** The text of a listing of one file: an array with the object of name
    a.mp3 and type file. *)
Definition listing_text : list Byte.byte :=
  [Byte.x5b; Byte.x7b; Byte.x22; Byte.x6e; Byte.x61; Byte.x6d; Byte.x65; Byte.x22;
   Byte.x3a; Byte.x22; Byte.x61; Byte.x2e; Byte.x6d; Byte.x70; Byte.x33; Byte.x22;
   Byte.x2c; Byte.x22; Byte.x74; Byte.x79; Byte.x70; Byte.x65; Byte.x22; Byte.x3a;
   Byte.x22; Byte.x66; Byte.x69; Byte.x6c; Byte.x65; Byte.x22; Byte.x7d; Byte.x5d].

(** A remote that answers every GET with 300, no [Location], and that
    listing for a body. *)
Definition multiple_choices_listing : Outside :=
  mkOutside
    (fun _ u =>
       inr (mkResponse 300 "Multiple Choices" u listing_text
              (inr (JList [entry "a.mp3" "file"]))))
    (fun _ => None) str_status_detail true.

(** A remote whose listing is an object: the path is a file. *)
Definition single_file : Outside :=
  mkOutside
    (fun _ u => inr (mkResponse 200 "OK" u [] (inr (entry "x.mp3" "file"))))
    (fun _ => None) str_status_detail true.

(** A listing with a number, a string and an object without a name among
    two files. *)
Definition mixed_array : list json :=
  [JInt 7; entry "a.mp3" "file"; JStr "b.mp3"; JDict [("type", JStr "file")];
   entry "c.wav" "file"].

Definition mixed_listing : Outside :=
  mkOutside
    (fun _ u => inr (mkResponse 200 "OK" u [] (inr (JList mixed_array))))
    (fun _ => None) str_status_detail true.

Definition empty_world : World := mkWorld ∅ [].

(** The entry of [x.mp3] is in the cache and nothing was requested yet. *)
Definition cached_world : World :=
  mkWorld {["audio_cache/x.mp3" := bytes_old]} [].

(** The process [s] with the trace [t]. *)
Definition with_trace (s : Proc) (t : list Event) : Proc :=
  mkProc (self s) (now s) (threads s) t.

(** ** The states of the manager that a process can be in *)

(** The process creates the manager once; after that only [start_server] and
    [is_server_running] touch it, on whatever host. *)
Inductive reachable : Proc -> Prop :=
  | reachable_init (clock : nat) :
      reachable (mkProc ServerManager_init clock 0 [])
  | reachable_start_server (host : Host) (s : Proc) :
      reachable s -> reachable (fst (start_server host s))
  | reachable_is_server_running (host : Host) (s : Proc) :
      reachable s -> reachable (fst (is_server_running host s)).

(** ** Sample hosts and processes *)

(** Every port taken, no thread alive, nothing listening. *)
Definition busy_host : Host :=
  mkHost (fun _ => Some "[Errno 98] Address already in use")
    (fun _ => false) (fun _ _ _ => (None, 0%nat)).

(** Ports 8000 to 8002 taken; the threads live and the service answers 200
    once the clock has passed 300 ms. *)
Definition lively_host : Host :=
  mkHost (fun p => if p <? 8003 then Some "[Errno 98] Address already in use"
                   else None)
    (fun _ => true)
    (fun t _ _ => (if (300 <? t)%nat then Some 200 else None, 9%nat)).

Definition fresh_proc : Proc := mkProc ServerManager_init 0 0 [].

(** The process after a launch on port 8003 that went well. *)
Definition launched_proc : Proc :=
  mkProc (mkServerManager (Some 8003) (Some 0%nat) true) 1000 1
    [EvBind 8003; EvThreadStart 0 (Some 8003)].

(** ** The front end: what [main] does around the manager, and its paths *)

(** [if not server_manager.is_server_running():
        server_manager.start_server()
        time.sleep(1)] *)
Definition ensure_server_running (host : Host) : Eff Proc unit :=
  let* running := is_server_running host in
  if negb running then
    let* _ := start_server host in
    time_sleep 1000
  else ret tt.




(** [f"{path}/{selected_file}" if path else selected_file] *)
Definition selected_file_path (path selected_file : string) : string :=
  if String.eqb path "" then selected_file
  else path +:+ "/" +:+ selected_file.

(** [x in l] for a list of strings. *)
Definition py_in (x : string) (l : list string) : bool :=
  existsb (String.eqb x) l.

(** [l.index(x)]: the first position of [x], [None] standing for the
    [ValueError] of a missing [x]. *)
Fixpoint py_index (x : string) (l : list string) : option nat :=
  match l with
  | [] => None
  | y :: rest => if String.eqb y x then Some O else S <$> py_index x rest
  end.

(** The [index] argument of the select box:
    [audio_files.index(selected_file) if selected_file in audio_files else 0],
    where [selected_file] is [None] or a name. *)
Definition selectbox_index (audio_files : list string)
    (selected_file : option string) : option nat :=
  match selected_file with
  | Some name =>
      if py_in name audio_files then py_index name audio_files else Some O
  | None => Some O
  end.

(** [requests.utils.quote], which is [urllib.parse.quote] with [safe='/']:
    letters, digits and [_.-~] stay, and so does the slash; every other byte
    becomes [%XX] with two upper-case hexadecimal digits. *)
Definition is_always_safe (a : ascii) : bool :=
  let n := nat_of_ascii a in
  ((65 <=? n) && (n <=? 90) || (97 <=? n) && (n <=? 122)
   || (48 <=? n) && (n <=? 57)
   || Ascii.eqb a "_" || Ascii.eqb a "." || Ascii.eqb a "-"
   || Ascii.eqb a "~")%nat.

Definition hex_digit (n : nat) : ascii :=
  if (n <? 10)%nat then ascii_of_nat (48 + n) else ascii_of_nat (55 + n).

Definition percent_encoded (a : ascii) : string :=
  let n := nat_of_ascii a in
  String "%" (String (hex_digit (n / 16)) (String (hex_digit (n mod 16)) "")).

Fixpoint quote (s : string) : string :=
  match s with
  | EmptyString => EmptyString
  | String a rest =>
      if is_always_safe a || Ascii.eqb a slash then String a (quote rest)
      else percent_encoded a +:+ quote rest
  end.

(** [encoded_file_path = requests.utils.quote(file_path)] for the file
    path that [main] builds from the directory and the selected name. *)
Definition encoded_file_path (path selected_file : string) : string :=
  quote (selected_file_path path selected_file).

(** Every character of [s] passes the test [P]. *)
Fixpoint all_chars (P : ascii -> bool) (s : string) : bool :=
  match s with
  | EmptyString => true
  | String a rest => P a && all_chars P rest
  end.

(** ** What holds of the manager between calls *)

(** A port is one of the fifty from 8000; port and thread are set together;
    the flag is set only on a launched manager; the thread is one that the
    process started. *)
Definition manager_ok (s : Proc) : Prop :=
  (forall p, port (self s) = Some p -> 8000 <= p <= 8049)
  /\ (port (self s) = None <-> server_thread (self s) = None)
  /\ (server_started (self s) = true -> port (self s) <> None)
  /\ (forall th, server_thread (self s) = Some th -> (th < threads s)%nat).


(** A character that may stand in the path of a URL as [quote] leaves it. *)
Definition is_url_safe (a : ascii) : bool :=
  is_always_safe a || Ascii.eqb a slash || Ascii.eqb a "%".

(** ** More sample hosts *)



(** The thread lives but the service does not answer. *)
Definition hung_host : Host :=
  mkHost (fun _ => None) (fun _ => true) (fun _ _ _ => (None, 0%nat)).

(** A listing in which a file has [null] for a name. *)
Definition null_name_array : list json :=
  [entry "a.mp3" "file"; JDict [("name", JNull); ("type", JStr "file")]].

Definition null_name_listing : Outside :=
  mkOutside
    (fun _ u => inr (mkResponse 200 "OK" u [] (inr (JList null_name_array))))
    (fun _ => None) str_status_detail true.

(** A listing with a directory and a text file next to two audio files. *)
Definition plain_array : list json :=
  [entry "music" "dir"; entry "a.mp3" "file"; entry "notes.txt" "file";
   entry "B.OGG" "file"].

(** ** Properties of the listing filter *)

Lemma is_audio_item_text (item : json) :
  file_name_is_text item = true ->
  is_audio_item item = inr (bool_decide (is_Some (spec_audio_name item))).
Proof.
  destruct item as [| | | | |l|d]; try reflexivity.
  unfold file_name_is_text, is_audio_item, spec_audio_name.
  destruct (dict_get "type" d) as [[| | | |t| |]|]; simpl; try reflexivity.
  destruct (String.eqb t "file"); simpl.
  - destruct (dict_get "name" d) as [[| | | |name| |]|]; simpl;
      try discriminate; try reflexivity.
    intros _. unfold endswith_any, SUPPORTED_FORMATS.
    match goal with |- inr ?b = _ => destruct b; reflexivity end.
  - destruct (dict_get "name" d) as [[| | | |name| |]|]; reflexivity.
Qed.

Lemma getitem_name_audio (item : json) (name : string) :
  spec_audio_name item = Some name ->
  getitem item "name" = inr (JStr name).
Proof.
  destruct item as [| | | | |l|d]; try discriminate.
  unfold spec_audio_name, getitem.
  destruct (dict_get "type" d) as [[| | | |t| |]|]; try discriminate.
  destruct (dict_get "name" d) as [[| | | |n| |]|]; try discriminate.
  destruct (_ && _); [|discriminate]. congruence.
Qed.

Lemma audio_files_of_text (contents : list json) :
  Forall (fun item => file_name_is_text item = true) contents ->
  audio_files_of contents = inr (JStr <$> spec_audio_names contents).
Proof.
  induction 1 as [|item rest Hitem _ IH]; [reflexivity|].
  cbn [audio_files_of]. rewrite (is_audio_item_text _ Hitem).
  unfold spec_audio_names. cbn [omap list_omap bind_exn].
  destruct (spec_audio_name item) as [name|] eqn:Hname.
  - rewrite bool_decide_eq_true_2 by eauto.
    rewrite (getitem_name_audio _ _ Hname). cbn [bind_exn].
    fold (spec_audio_names rest). rewrite IH. reflexivity.
  - rewrite bool_decide_eq_false_2 by (intros [? ?]; discriminate).
    exact IH.
Qed.

Lemma spec_audio_name_malformed (item : json) :
  malformed_entry item = true -> spec_audio_name item = None.
Proof.
  destruct item as [| | | | |l|d]; try reflexivity.
  unfold malformed_entry, spec_audio_name.
  destruct (dict_get "name" d); [discriminate|].
  destruct (dict_get "type" d) as [[| | | |t| |]|]; reflexivity.
Qed.

Lemma malformed_is_text (item : json) :
  malformed_entry item = true -> file_name_is_text item = true.
Proof.
  destruct item as [| | | | |l|d]; try reflexivity.
  unfold malformed_entry, file_name_is_text.
  destruct (dict_get "name" d); [discriminate|].
  destruct (py_eq_str _ _); reflexivity.
Qed.

Lemma spec_audio_names_skip (contents : list json) :
  spec_audio_names contents =
  spec_audio_names (filter (fun item => malformed_entry item = false) contents).
Proof.
  unfold spec_audio_names.
  induction contents as [|item rest IH]; [reflexivity|].
  rewrite filter_cons. cbn [omap list_omap].
  destruct (decide (malformed_entry item = false)) as [Hm|Hm].
  - cbn [omap list_omap]. fold (omap spec_audio_name rest).
    fold (omap spec_audio_name
            (filter (fun item => malformed_entry item = false) rest)).
    rewrite IH. reflexivity.
  - apply not_false_is_true in Hm.
    rewrite (spec_audio_name_malformed _ Hm). exact IH.
Qed.

(** ** Paths *)

Lemma rfind_lower_bound (c : ascii) (s : string) : -1 <= rfind c s.
Proof.
  induction s as [|a rest IH]; cbn [rfind]; [lia|].
  destruct (0 <=? rfind c rest) eqn:Hi; [lia|].
  destruct (Ascii.eqb a c); lia.
Qed.

Lemma rfind_absent_head (c a : ascii) (rest : string) :
  rfind c (String a rest) = -1 -> Ascii.eqb a c = false /\ rfind c rest = -1.
Proof.
  cbn [rfind]. pose proof (rfind_lower_bound c rest) as Hlb.
  destruct (0 <=? rfind c rest) eqn:Hi.
  - apply Z.leb_le in Hi. lia.
  - apply Z.leb_gt in Hi. destruct (Ascii.eqb a c); [lia|]. split; [reflexivity|lia].
Qed.

Lemma basename_cons (a : ascii) (rest : string) :
  basename (String a rest) =
  if 0 <=? rfind slash rest then basename rest
  else if Ascii.eqb a slash then rest else String a rest.
Proof.
  unfold basename. cbn [rfind].
  pose proof (rfind_lower_bound slash rest) as Hlb.
  destruct (0 <=? rfind slash rest) eqn:Hi.
  - apply Z.leb_le in Hi.
    replace (Z.to_nat (rfind slash rest + 1 + 1))
      with (S (Z.to_nat (rfind slash rest + 1))) by lia.
    reflexivity.
  - destruct (Ascii.eqb a slash); reflexivity.
Qed.

(** The base name holds no slash. *)
Lemma basename_no_slash (p : string) : rfind slash (basename p) = -1.
Proof.
  induction p as [|a rest IH]; [reflexivity|].
  rewrite basename_cons.
  pose proof (rfind_lower_bound slash rest) as Hlb.
  destruct (0 <=? rfind slash rest) eqn:Hi; [exact IH|].
  apply Z.leb_gt in Hi.
  destruct (Ascii.eqb a slash) eqn:Ha; [lia|].
  cbn [rfind]. rewrite Ha.
  destruct (0 <=? rfind slash rest) eqn:Hi'; [apply Z.leb_le in Hi'; lia|reflexivity].
Qed.

(** The local path of a request is the cache directory and the base name of
    the requested path, whatever directories the path names. *)
Lemma local_path_basename (file_path : string) :
  os_path_join AUDIO_CACHE_DIR (basename file_path)
  = "audio_cache/" +:+ basename file_path.
Proof.
  unfold os_path_join, startswith.
  pose proof (basename_no_slash file_path) as Hns.
  destruct (basename file_path) as [|a rest]; [reflexivity|].
  apply rfind_absent_head in Hns as [Ha _].
  cbn [String.prefix]. unfold slash in Ha.
  destruct (ascii_dec "/"%char a) as [<-|_].
  - rewrite Ascii.eqb_refl in Ha. discriminate.
  - reflexivity.
Qed.

(** ** The file route, case by case *)

Lemma raise_for_status_is_RequestException (r : Response) (e : exn) :
  raise_for_status r = Some e -> is_RequestException e = true.
Proof.
  unfold raise_for_status.
  destruct (_ && _); [intros [= <-]; reflexivity|].
  destruct (_ && _); [intros [= <-]; reflexivity|discriminate].
Qed.

Lemma raise_for_status_None (r : Response) :
  raise_for_status r = None <-> ~ (400 <= status_code r < 600).
Proof.
  unfold raise_for_status.
  destruct (400 <=? status_code r) eqn:H1;
    destruct (status_code r <? 500) eqn:H2;
    destruct (500 <=? status_code r) eqn:H3;
    destruct (status_code r <? 600) eqn:H4; cbn [andb];
    rewrite ?Z.leb_le, ?Z.leb_gt, ?Z.ltb_lt, ?Z.ltb_ge in *;
    split; intros; try discriminate; try reflexivity; lia.
Qed.

Lemma raise_for_status_error (r : Response) :
  400 <= status_code r < 600 ->
  exists cause, raise_for_status r = Some (HTTPError cause).
Proof.
  intros Hr. destruct (raise_for_status r) as [e|] eqn:Hn.
  - unfold raise_for_status in Hn.
    destruct (_ && _) in Hn; [injection Hn as <-; eauto|].
    destruct (_ && _) in Hn; [injection Hn as <-; eauto|discriminate].
  - apply raise_for_status_None in Hn. contradiction.
Qed.

(** What [download_audio_from_github] does, by the answers of the outside. *)
Lemma download_audio_from_github_cases (out : Outside)
    (owner repo branch file_path : string) (w : World) :
  let audio_url :=
    GITHUB_RAW_BASE_URL owner repo branch (lstrip slash file_path) in
  let local_path := "audio_cache/" +:+ basename file_path in
  let w1 := mkWorld (fs w) (requested w ++ [audio_url]) in
  download_audio_from_github out owner repo branch file_path w =
  match requests_get out (length (requested w)) audio_url with
  | inl msg =>
      (w1, inl (HTTPException 404 ("Audio file not found: " +:+ msg)))
  | inr response =>
      match raise_for_status response with
      | Some e =>
          (w1, inl (HTTPException 404
                      ("Audio file not found: " +:+ str_exn (starlette out) e)))
      | None =>
          match open_wb out local_path with
          | Some (OpenFails msg) => (w1, inl (OSError msg))
          | Some (WriteFails msg written) =>
              (mkWorld (<[local_path := take written (content response)]> (fs w))
                 (requested w ++ [audio_url]), inl (OSError msg))
          | None =>
              (mkWorld (<[local_path := content response]> (fs w))
                 (requested w ++ [audio_url]), inr local_path)
          end
      end
  end.
Proof.
  intros audio_url local_path w1.
  unfold download_audio_from_github. rewrite local_path_basename.
  fold audio_url local_path.
  unfold try_except, bind, http_get, check_status, write_file, ret, raise.
  destruct (requests_get out _ audio_url) as [msg|response]; [reflexivity|].
  destruct (raise_for_status response) as [e|] eqn:He.
  - rewrite (raise_for_status_is_RequestException _ _ He). reflexivity.
  - cbn [fs requested]. destruct (open_wb out local_path) as [[msg|msg written]|];
      reflexivity.
Qed.

(** What a whole request to the file route does and sends. *)
Lemma serve_get_audio_file_cases (out : Outside)
    (owner repo branch file_path : string) (w : World) :
  let audio_url :=
    GITHUB_RAW_BASE_URL owner repo branch (lstrip slash file_path) in
  let local_path := "audio_cache/" +:+ basename file_path in
  let w1 := mkWorld (fs w) (requested w ++ [audio_url]) in
  let not_found (cause : string) :=
    (w1, inr (500, Json (error_body
                           (str_HTTPException (starlette out) 404
                              ("Audio file not found: " +:+ cause))))) in
  serve (get_audio_file out owner repo branch file_path) w =
  match requests_get out (length (requested w)) audio_url with
  | inl msg => not_found msg
  | inr response =>
      match raise_for_status response with
      | Some e => not_found (str_exn (starlette out) e)
      | None =>
          match open_wb out local_path with
          | Some (OpenFails msg) => (w1, inr (500, Json (error_body msg)))
          | Some (WriteFails msg written) =>
              (mkWorld (<[local_path := take written (content response)]> (fs w))
                 (requested w ++ [audio_url]),
               inr (500, Json (error_body msg)))
          | None =>
              (mkWorld (<[local_path := content response]> (fs w))
                 (requested w ++ [audio_url]),
               inr (200, Bytes (content response)))
          end
      end
  end.
Proof.
  intros audio_url local_path w1 not_found.
  unfold serve, get_audio_file, try_except, bind.
  rewrite download_audio_from_github_cases.
  fold audio_url local_path w1.
  destruct (requests_get out _ audio_url) as [msg|response]; [reflexivity|].
  destruct (raise_for_status response) as [e|]; [reflexivity|].
  destruct (open_wb out local_path) as [[msg|msg written]|]; try reflexivity.
  unfold ret, send, FileResponse. cbn [http_body http_status fs].
  rewrite lookup_insert_eq. reflexivity.
Qed.

Lemma pretty_404 : pretty 404 = "404".
Proof. by vm_compute. Qed.

Lemma append_empty_r (s : string) : s +:+ "" = s.
Proof.
  induction s as [|a s IH]; [reflexivity|].
  change (String a (s +:+ "") = String a s). by rewrite IH.
Qed.

Lemma includes_suffix (pre sub : string) : includes sub (pre +:+ sub).
Proof. exists pre, "". rewrite append_empty_r. reflexivity. Qed.

Lemma requested_after_one (l : list string) (u : string) :
  length (l ++ [u]) = S (length l).
Proof. rewrite length_app. cbn. lia. Qed.

(** ** The file route and its cache *)

(** C1, as the code has it: a request to the file route derives its cache
    path from the base name of the requested path and always issues exactly
    one remote fetch, whether or not that entry is already in the cache; when
    the fetch and the write succeed, the entry holds the fetched bytes and
    these are the bytes served.  Two requests for one file make two remote
    calls, and serve the same bytes when the remote sends the same body
    twice. *)
Theorem C1_fetch_always_then_write (out : Outside)
    (owner repo branch file_path : string) (w : World) :
  let audio_url :=
    GITHUB_RAW_BASE_URL owner repo branch (lstrip slash file_path) in
  let key := "audio_cache/" +:+ basename file_path in
  let n := length (requested w) in
  let first := serve (get_audio_file out owner repo branch file_path) w in
  let second :=
    serve (get_audio_file out owner repo branch file_path) (fst first) in
  requested (fst first) = requested w ++ [audio_url]
  /\ requested (fst second) = requested w ++ [audio_url; audio_url]
  /\ (forall r1,
        requests_get out n audio_url = inr r1 ->
        raise_for_status r1 = None ->
        open_wb out key = None ->
        fs (fst first) = <[key := content r1]> (fs w)
        /\ snd first = inr (200, Bytes (content r1))
        /\ forall r2,
             requests_get out (S n) audio_url = inr r2 ->
             raise_for_status r2 = None ->
             content r2 = content r1 ->
             snd second = snd first).
Proof.
  intros audio_url key n first second.
  assert (Hfirst : requested (fst first) = requested w ++ [audio_url]).
  { subst first. rewrite serve_get_audio_file_cases. fold audio_url key n.
    destruct (requests_get out n audio_url) as [?|r]; [reflexivity|].
    destruct (raise_for_status r); [reflexivity|].
    destruct (open_wb out key) as [[|]|]; reflexivity. }
  assert (Hsecond : requested (fst second)
                    = requested (fst first) ++ [audio_url]).
  { subst second. rewrite serve_get_audio_file_cases. fold audio_url key.
    destruct (requests_get out _ audio_url) as [?|r]; [reflexivity|].
    destruct (raise_for_status r); [reflexivity|].
    destruct (open_wb out key) as [[|]|]; reflexivity. }
  split; [exact Hfirst|]. split.
  { rewrite Hsecond, Hfirst, <- app_assoc. reflexivity. }
  intros r1 Hget1 Hok1 Hopen.
  assert (Heq : first = (mkWorld (<[key := content r1]> (fs w))
                           (requested w ++ [audio_url]),
                         inr (200, Bytes (content r1)))).
  { subst first. rewrite serve_get_audio_file_cases. fold audio_url key n.
    rewrite Hget1, Hok1, Hopen. reflexivity. }
  split; [rewrite Heq; reflexivity|]. split; [rewrite Heq; reflexivity|].
  intros r2 Hget2 Hok2 Hsame.
  subst second. rewrite serve_get_audio_file_cases. fold audio_url key.
  rewrite Heq. cbn [fst snd fs requested].
  rewrite requested_after_one. fold n.
  rewrite Hget2, Hok2, Hopen, Hsame. reflexivity.
Qed.

(** C1 at a remote that has the file: the entry is written and served. *)
Lemma C1_fetch_always_then_write_witness :
  fs (fst (serve (get_audio_file two_dirs "o" "r" "main" "a/x.mp3") cached_world))
  = <["audio_cache/x.mp3" := bytes_a]> (fs cached_world)
  /\ snd (serve (get_audio_file two_dirs "o" "r" "main" "a/x.mp3") cached_world)
     = inr (200, Bytes bytes_a).
Proof.
  pose proof (C1_fetch_always_then_write two_dirs "o" "r" "main" "a/x.mp3"
                cached_world) as (_ & _ & H).
  destruct (H (mkResponse 200 "OK" raw_a bytes_a not_json)
              eq_refl eq_refl eq_refl) as (H1 & H2 & _).
  split; [exact H1|exact H2].
Defined.

(** C1 as stated fails: with the entry of [x.mp3] already in the cache the
    request still goes to the remote and serves the remote bytes, not the
    cached ones; and two requests from an empty cache make two remote calls. *)
Lemma C1_counterexample :
  fs cached_world !! "audio_cache/x.mp3" = Some bytes_old
  /\ (let hit := serve (get_audio_file two_dirs "o" "r" "main" "a/x.mp3")
                   cached_world in
      requested (fst hit) = [raw_a]
      /\ snd hit = inr (200, Bytes bytes_a)
      /\ bytes_a <> bytes_old)
  /\ (let first := serve (get_audio_file two_dirs "o" "r" "main" "a/x.mp3")
                     empty_world in
      let second := serve (get_audio_file two_dirs "o" "r" "main" "a/x.mp3")
                      (fst first) in
      snd second = snd first
      /\ length (requested (fst second)) = 2%nat).
Proof.
  split; [by vm_compute|]. split.
  - split; [by vm_compute|]. split; [by vm_compute|]. discriminate.
  - split; by vm_compute.
Qed.

(** C2, as the code has it: the cache path depends on the base name only, so
    two remote files with one base name share one entry; a successful fetch
    of the second overwrites what the first wrote.  A later request for the
    first file fetches it again, writes its bytes over the entry and serves
    those. *)
Theorem C2_same_base_name_one_entry (out : Outside)
    (owner1 repo1 branch1 path1 owner2 repo2 branch2 path2 : string)
    (r1 r2 r3 : Response) (w : World) :
  let url1 := GITHUB_RAW_BASE_URL owner1 repo1 branch1 (lstrip slash path1) in
  let url2 := GITHUB_RAW_BASE_URL owner2 repo2 branch2 (lstrip slash path2) in
  let key := "audio_cache/" +:+ basename path1 in
  let n := length (requested w) in
  let first := serve (get_audio_file out owner1 repo1 branch1 path1) w in
  let second :=
    serve (get_audio_file out owner2 repo2 branch2 path2) (fst first) in
  let third :=
    serve (get_audio_file out owner1 repo1 branch1 path1) (fst second) in
  basename path2 = basename path1 ->
  open_wb out key = None ->
  requests_get out n url1 = inr r1 -> raise_for_status r1 = None ->
  requests_get out (S n) url2 = inr r2 -> raise_for_status r2 = None ->
  requests_get out (S (S n)) url1 = inr r3 -> raise_for_status r3 = None ->
  fs (fst first) = <[key := content r1]> (fs w)
  /\ snd first = inr (200, Bytes (content r1))
  /\ fs (fst second) = <[key := content r2]> (fs w)
  /\ snd second = inr (200, Bytes (content r2))
  /\ fs (fst third) = <[key := content r3]> (fs w)
  /\ snd third = inr (200, Bytes (content r3))
  /\ requested (fst third) = requested w ++ [url1; url2; url1].
Proof.
  intros url1 url2 key n first second third Hbase Hopen
    Hget1 Hok1 Hget2 Hok2 Hget3 Hok3.
  assert (H1 : first = (mkWorld (<[key := content r1]> (fs w))
                          (requested w ++ [url1]),
                        inr (200, Bytes (content r1)))).
  { subst first. rewrite serve_get_audio_file_cases. fold url1 key n.
    rewrite Hget1, Hok1, Hopen. reflexivity. }
  assert (H2 : second = (mkWorld (<[key := content r2]> (fs w))
                           (requested w ++ [url1; url2]),
                         inr (200, Bytes (content r2)))).
  { subst second. rewrite serve_get_audio_file_cases, H1.
    cbn [fst fs requested]. rewrite requested_after_one, Hbase.
    fold url2 key n. rewrite Hget2, Hok2, Hopen.
    rewrite insert_insert_eq, <- app_assoc. reflexivity. }
  assert (H3 : third = (mkWorld (<[key := content r3]> (fs w))
                          (requested w ++ [url1; url2; url1]),
                        inr (200, Bytes (content r3)))).
  { subst third. rewrite serve_get_audio_file_cases, H2.
    cbn [fst fs requested].
    replace (length (requested w ++ [url1; url2])) with (S (S n))
      by (rewrite length_app; cbn; subst n; lia).
    fold url1 key. rewrite Hget3, Hok3, Hopen.
    rewrite insert_insert_eq, <- app_assoc. reflexivity. }
  rewrite H1, H2, H3. cbn [fst snd fs requested]. repeat split; reflexivity.
Qed.

(** C2 at the remote with [a/x.mp3] and [b/x.mp3]. *)
Lemma C2_same_base_name_one_entry_witness :
  let first := serve (get_audio_file two_dirs "o" "r" "main" "a/x.mp3")
                 empty_world in
  let second := serve (get_audio_file two_dirs "o" "r" "main" "b/x.mp3")
                  (fst first) in
  let third := serve (get_audio_file two_dirs "o" "r" "main" "a/x.mp3")
                 (fst second) in
  fs (fst second) = <["audio_cache/x.mp3" := bytes_b]> (fs empty_world)
  /\ snd third = inr (200, Bytes bytes_a).
Proof.
  pose proof (C2_same_base_name_one_entry two_dirs
                "o" "r" "main" "a/x.mp3" "o" "r" "main" "b/x.mp3"
                (mkResponse 200 "OK" raw_a bytes_a not_json)
                (mkResponse 200 "OK" raw_b bytes_b not_json)
                (mkResponse 200 "OK" raw_a bytes_a not_json)
                empty_world
                eq_refl eq_refl eq_refl eq_refl eq_refl eq_refl eq_refl eq_refl)
    as (_ & _ & H2 & _ & _ & H3 & _).
  split; [exact H2|exact H3].
Defined.

(** C2 as stated fails: after [a/x.mp3] and then [b/x.mp3] were fetched, a
    request for [a/x.mp3] is served the bytes of [a/x.mp3], not those of
    [b/x.mp3] that the cache held. *)
Lemma C2_counterexample :
  let first := serve (get_audio_file two_dirs "o" "r" "main" "a/x.mp3")
                 empty_world in
  let second := serve (get_audio_file two_dirs "o" "r" "main" "b/x.mp3")
                  (fst first) in
  let third := serve (get_audio_file two_dirs "o" "r" "main" "a/x.mp3")
                 (fst second) in
  fs (fst second) !! "audio_cache/x.mp3" = Some bytes_b
  /\ snd third = inr (200, Bytes bytes_a)
  /\ snd third <> inr (200, Bytes bytes_b).
Proof.
  split; [by vm_compute|]. split; [by vm_compute|].
  vm_compute. discriminate.
Qed.

(** C5, as the code has it: the file route lets no exception out; a
    transport failure, a remote status of the 4xx or 5xx class and a failed
    write of the cache file each give a 500 response with the JSON body
    [{error: str(e)}], and every other answer of the remote is written and
    served.  For a failed fetch [e] is the [HTTPException] of the download,
    whose text is the installed Starlette's: for a remote 404 it is
    "404: Audio file not found: " and the text of the [HTTPError], hence not
    empty, where Starlette gives [HTTPException] a [__str__], and the empty
    string where it does not. *)
Theorem C5_failure_is_500_json (out : Outside)
    (owner repo branch file_path : string) (w : World) :
  let audio_url :=
    GITHUB_RAW_BASE_URL owner repo branch (lstrip slash file_path) in
  let key := "audio_cache/" +:+ basename file_path in
  let sent := snd (serve (get_audio_file out owner repo branch file_path) w) in
  let answer := requests_get out (length (requested w)) audio_url in
  let not_found (cause : string) :=
    str_HTTPException (starlette out) 404 ("Audio file not found: " +:+ cause) in
  (forall msg,
     answer = inl msg ->
     sent = inr (500, Json (error_body (not_found msg))))
  /\ (forall r,
        answer = inr r -> 400 <= status_code r < 600 ->
        exists cause,
          raise_for_status r = Some (HTTPError cause)
          /\ sent = inr (500, Json (error_body (not_found cause))))
  /\ (forall r failure,
        answer = inr r -> ~ (400 <= status_code r < 600) ->
        open_wb out key = Some failure ->
        sent = inr (500, Json (error_body (failure_message failure))))
  /\ (forall r,
        answer = inr r -> ~ (400 <= status_code r < 600) ->
        open_wb out key = None ->
        sent = inr (200, Bytes (content r)))
  /\ (forall r,
        answer = inr r -> status_code r = 404 ->
        let cause :=
          "404 Client Error: " +:+ reason r +:+ " for url: " +:+ url r in
        sent = inr (500, Json (error_body (not_found cause)))
        /\ (starlette out = str_status_detail ->
            not_found cause = "404: Audio file not found: " +:+ cause
            /\ not_found cause <> ""
            /\ includes cause (not_found cause))
        /\ (starlette out = str_empty -> not_found cause = "")).
Proof.
  intros audio_url key sent answer not_found.
  assert (Hsent : sent = snd (serve (get_audio_file out owner repo branch
                                       file_path) w)) by reflexivity.
  rewrite serve_get_audio_file_cases in Hsent.
  fold audio_url key answer in Hsent.
  split; [|split; [|split; [|split]]].
  - intros msg Ha. rewrite Ha in Hsent. exact Hsent.
  - intros r Ha Hr. destruct (raise_for_status_error r Hr) as [cause Hc].
    exists cause. split; [exact Hc|].
    rewrite Ha, Hc in Hsent. exact Hsent.
  - intros r failure Ha Hr Hopen. apply raise_for_status_None in Hr.
    rewrite Ha, Hr, Hopen in Hsent. rewrite Hsent.
    destruct failure; reflexivity.
  - intros r Ha Hr Hopen. apply raise_for_status_None in Hr.
    rewrite Ha, Hr, Hopen in Hsent. exact Hsent.
  - intros r Ha H404 cause.
    assert (Hc : raise_for_status r = Some (HTTPError cause)).
    { unfold raise_for_status. rewrite H404, pretty_404. reflexivity. }
    rewrite Ha, Hc in Hsent. split; [exact Hsent|]. split.
    + intros Hv. subst not_found. cbv beta. rewrite Hv.
      unfold str_HTTPException. rewrite pretty_404.
      split; [reflexivity|]. split; [discriminate|].
      apply (includes_suffix "404: Audio file not found: ").
    + intros Hv. subst not_found. cbv beta. rewrite Hv. reflexivity.
Qed.

(** C5 at a remote that answers 404, under a Starlette with [__str__]. *)
Lemma C5_failure_is_500_json_witness :
  snd (serve (get_audio_file two_dirs "o" "r" "main" "c/y.mp3") empty_world)
  = inr (500, Json (error_body
                      ("404: Audio file not found: "
                         +:+ "404 Client Error: Not Found for url: "
                         +:+ "https://raw.githubusercontent.com/o/r/main/c/y.mp3")))
  /\ includes
       ("404 Client Error: Not Found for url: "
          +:+ "https://raw.githubusercontent.com/o/r/main/c/y.mp3")
       ("404: Audio file not found: "
          +:+ "404 Client Error: Not Found for url: "
          +:+ "https://raw.githubusercontent.com/o/r/main/c/y.mp3").
Proof.
  pose proof (C5_failure_is_500_json two_dirs "o" "r" "main" "c/y.mp3"
                empty_world) as (_ & _ & _ & _ & H).
  destruct (H (mkResponse 404 "Not Found"
                 "https://raw.githubusercontent.com/o/r/main/c/y.mp3" []
                 not_json) eq_refl eq_refl) as (Hsent & Hnew & _).
  destruct (Hnew eq_refl) as (_ & _ & Hincl).
  split; [exact Hsent|exact Hincl].
Defined.

(** C5 as stated fails twice.  A final status that is neither 2xx nor of an
    error class is no failure to the route: the body of a remote 300 is
    written and served with 200.  And under a Starlette that gives
    [HTTPException] no [__str__], the message for a remote 404 is empty. *)
Lemma C5_counterexample :
  (requests_get multiple_choices_file 0 raw_a
   = inr (mkResponse 300 "Multiple Choices" raw_a bytes_a not_json)
   /\ ~ (200 <= 300 < 300)
   /\ snd (serve (get_audio_file multiple_choices_file "o" "r" "main" "a/x.mp3")
             empty_world)
      = inr (200, Bytes bytes_a))
  /\ (requests_get two_dirs_older_starlette 0
        "https://raw.githubusercontent.com/o/r/main/c/y.mp3"
      = inr (mkResponse 404 "Not Found"
               "https://raw.githubusercontent.com/o/r/main/c/y.mp3" [] not_json)
      /\ snd (serve (get_audio_file two_dirs_older_starlette
                       "o" "r" "main" "c/y.mp3") empty_world)
         = inr (500, Json (error_body ""))).
Proof.
  split.
  - split; [reflexivity|]. split; [lia|]. by vm_compute.
  - split; [reflexivity|]. by vm_compute.
Qed.

(** ** The listing route, case by case *)

Lemma audio_files_of_raises (contents : list json) (e : exn) :
  audio_files_of contents = inl e -> is_RequestException e = false.
Proof.
  revert e. induction contents as [|item rest IH]; intros e; [discriminate|].
  cbn [audio_files_of]. unfold bind_exn.
  destruct (is_audio_item item) as [e'|keep] eqn:Hitem.
  - intros [= <-]. destruct item as [| | | | |l|d]; try discriminate.
    unfold is_audio_item in Hitem.
    destruct (py_eq_str _ _); [|discriminate].
    destruct (default _ _); try discriminate; injection Hitem as <-; reflexivity.
  - destruct keep; [|apply IH].
    destruct (getitem item "name") as [e'|name] eqn:Hname.
    + intros [= <-]. unfold getitem in Hname.
      destruct item as [| | | | |l|d]; try (injection Hname as <-; reflexivity).
      destruct (dict_get "name" d); [discriminate|].
      injection Hname as <-. reflexivity.
    + destruct (audio_files_of rest) as [e'|names]; [|discriminate].
      intros [= <-]. apply IH. reflexivity.
Qed.

(** What [list_audio_files] does, by the answer of the remote: one GET of the
    listing URL, and nothing else. *)
Lemma list_audio_files_cases (out : Outside)
    (owner repo branch path : string) (w : World) :
  let api_url := GITHUB_API_BASE_URL owner repo (lstrip slash path) branch in
  list_audio_files out owner repo branch path w =
  (mkWorld (fs w) (requested w ++ [api_url]),
   match requests_get out (length (requested w)) api_url with
   | inl msg => inr (JSONResponse 404 (error_body msg))
   | inr response =>
       match raise_for_status response with
       | Some e =>
           inr (JSONResponse 404 (error_body (str_exn (starlette out) e)))
       | None =>
           match json_body response with
           | inl msg =>
               if json_error_is_RequestException out
               then inr (JSONResponse 404 (error_body msg))
               else inl (ValueError msg)
           | inr (JList items) =>
               match audio_files_of items with
               | inr audio_files =>
                   inr (JSONResponse 200
                          (JDict [("audio_files", JList audio_files)]))
               | inl e => inl e
               end
           | inr _ =>
               inr (JSONResponse 400 (error_body "Path is not a directory"))
           end
       end
   end).
Proof.
  intros api_url. unfold list_audio_files. fold api_url.
  unfold try_except, bind, http_get, check_status, lift, ret, raise,
    response_json.
  destruct (requests_get out _ api_url) as [msg|response]; [reflexivity|].
  destruct (raise_for_status response) as [e|] eqn:He.
  - rewrite (raise_for_status_is_RequestException _ _ He). reflexivity.
  - destruct (json_body response) as [msg|[| | | | |items|]]; try reflexivity.
    { destruct (json_error_is_RequestException out); reflexivity. }
    destruct (audio_files_of items) as [e|names] eqn:Hnames; [|reflexivity].
    rewrite (audio_files_of_raises _ _ Hnames). reflexivity.
Qed.

(** ** The listing *)

(** C3: for every array that the listing API returns, the comprehension of
    [list_audio_files] yields exactly the names of the entries whose type is
    "file" and whose lower-cased name ends with .mp3, .wav, .ogg, .flac or
    .m4a, in the order of the array, and the route answers with them. *)
Theorem C3_listing_is_filtered_names (contents : list json) :
  Forall (fun item => file_name_is_text item = true) contents ->
  audio_files_of contents = inr (JStr <$> spec_audio_names contents)
  /\ forall out owner repo branch path w r,
       requests_get out (length (requested w))
         (GITHUB_API_BASE_URL owner repo (lstrip slash path) branch) = inr r ->
       raise_for_status r = None ->
       json_body r = inr (JList contents) ->
       snd (list_audio_files out owner repo branch path w)
       = inr (JSONResponse 200
                (JDict [("audio_files",
                         JList (JStr <$> spec_audio_names contents))])).
Proof.
  intros Htext. pose proof (audio_files_of_text contents Htext) as Hnames.
  split; [exact Hnames|].
  intros out owner repo branch path w r Hget Hok Hbody.
  rewrite list_audio_files_cases. cbn [snd].
  rewrite Hget, Hok, Hbody, Hnames. reflexivity.
Qed.

(** C3 on the listing [a.mp3, b.txt, c.FLAC] of files. *)
Lemma C3_listing_is_filtered_names_witness :
  audio_files_of [entry "a.mp3" "file"; entry "b.txt" "file";
                  entry "c.FLAC" "file"]
  = inr [JStr "a.mp3"; JStr "c.FLAC"].
Proof.
  exact (proj1 (C3_listing_is_filtered_names
                  [entry "a.mp3" "file"; entry "b.txt" "file";
                   entry "c.FLAC" "file"]
                  ltac:(repeat constructor))).
Defined.

(** C4, as the code has it: the listing route issues the one GET of the
    listing URL and touches no file.  It answers 404 with [{error: …}] when
    the GET fails in transport and when the remote status is of the 4xx or
    5xx class; 400 with [{error: …}] when the body is JSON but not an array;
    and 200 with [{audio_files: […]}] when it is an array of entries as the
    API sends them.  A body that is not JSON gives 404 where the decoder's
    exception is a [RequestException] (requests 2.27 and later); where it is
    a plain [ValueError], the exception leaves the route. *)
Theorem C4_listing_responses (out : Outside)
    (owner repo branch path : string) (w : World) :
  let api_url := GITHUB_API_BASE_URL owner repo (lstrip slash path) branch in
  let answer := requests_get out (length (requested w)) api_url in
  let result := list_audio_files out owner repo branch path w in
  fst result = mkWorld (fs w) (requested w ++ [api_url])
  /\ (forall msg,
        answer = inl msg ->
        snd result = inr (JSONResponse 404 (error_body msg)))
  /\ (forall r,
        answer = inr r -> 400 <= status_code r < 600 ->
        exists cause,
          raise_for_status r = Some (HTTPError cause)
          /\ snd result = inr (JSONResponse 404 (error_body cause)))
  /\ (forall r msg,
        answer = inr r -> ~ (400 <= status_code r < 600) ->
        json_body r = inl msg ->
        snd result
        = if json_error_is_RequestException out
          then inr (JSONResponse 404 (error_body msg))
          else inl (ValueError msg))
  /\ (forall r j,
        answer = inr r -> ~ (400 <= status_code r < 600) ->
        json_body r = inr j -> (forall items, j <> JList items) ->
        snd result
        = inr (JSONResponse 400 (error_body "Path is not a directory")))
  /\ (forall r items,
        answer = inr r -> ~ (400 <= status_code r < 600) ->
        json_body r = inr (JList items) ->
        Forall (fun item => file_name_is_text item = true) items ->
        snd result
        = inr (JSONResponse 200
                 (JDict [("audio_files",
                          JList (JStr <$> spec_audio_names items))]))).
Proof.
  intros api_url answer result.
  assert (Hres : result = list_audio_files out owner repo branch path w)
    by reflexivity.
  rewrite list_audio_files_cases in Hres. fold api_url answer in Hres.
  rewrite Hres. cbn [fst snd].
  split; [reflexivity|]. split; [|split; [|split; [|split]]].
  - intros msg ->. reflexivity.
  - intros r -> Hr. destruct (raise_for_status_error r Hr) as [cause Hc].
    exists cause. rewrite Hc. split; reflexivity.
  - intros r msg -> Hr Hbody. apply raise_for_status_None in Hr.
    rewrite Hr, Hbody. reflexivity.
  - intros r j -> Hr Hbody Hj. apply raise_for_status_None in Hr.
    rewrite Hr, Hbody.
    destruct j as [| | | | |items|]; try reflexivity.
    exfalso. exact (Hj items eq_refl).
  - intros r items -> Hr Hbody Htext. apply raise_for_status_None in Hr.
    rewrite Hr, Hbody, (audio_files_of_text items Htext). reflexivity.
Qed.

(** C4 at a path that is a file: the remote answers 200 with an object. *)
Lemma C4_listing_responses_witness :
  snd (list_audio_files single_file "o" "r" "main" "a" empty_world)
  = inr (JSONResponse 400 (error_body "Path is not a directory")).
Proof.
  pose proof (C4_listing_responses single_file "o" "r" "main" "a" empty_world)
    as (_ & _ & _ & _ & H & _).
  apply (H (mkResponse 200 "OK" api_a [] (inr (entry "x.mp3" "file")))
           (entry "x.mp3" "file") eq_refl).
  - cbn [status_code]. lia.
  - reflexivity.
  - discriminate.
Defined.

(** C4 as stated fails for a status that is neither 2xx nor an error class:
    a remote 300 without [Location] is final and keeps its body, and the
    route answers the array it carries with 200 and the names, not with
    404. *)
Lemma C4_counterexample :
  requests_get multiple_choices_listing 0 api_a
  = inr (mkResponse 300 "Multiple Choices" api_a listing_text
           (inr (JList [entry "a.mp3" "file"])))
  /\ ~ (200 <= 300 < 300)
  /\ snd (list_audio_files multiple_choices_listing "o" "r" "main" "a"
            empty_world)
     = inr (JSONResponse 200 (JDict [("audio_files", JList [JStr "a.mp3"])])).
Proof.
  split; [reflexivity|]. split; [lia|]. by vm_compute.
Qed.

(** C10: entries of the array that are not objects, and objects without a
    name, are passed over without an error: the route answers 200 with the
    names it would give for the array without these entries. *)
Theorem C10_malformed_entries_skipped (out : Outside)
    (owner repo branch path : string) (w : World) (r : Response)
    (contents : list json) :
  requests_get out (length (requested w))
    (GITHUB_API_BASE_URL owner repo (lstrip slash path) branch) = inr r ->
  raise_for_status r = None ->
  json_body r = inr (JList contents) ->
  Forall (fun item => file_name_is_text item = true) contents ->
  (forall item, malformed_entry item = true -> is_audio_item item = inr false)
  /\ snd (list_audio_files out owner repo branch path w)
     = inr (JSONResponse 200
              (JDict [("audio_files",
                       JList (JStr <$> spec_audio_names
                                (filter (fun item => malformed_entry item = false)
                                   contents)))])).
Proof.
  intros Hget Hok Hbody Htext. split.
  - intros item Hm. rewrite (is_audio_item_text _ (malformed_is_text _ Hm)).
    rewrite (spec_audio_name_malformed _ Hm).
    rewrite bool_decide_eq_false_2 by (intros [? ?]; discriminate).
    reflexivity.
  - rewrite list_audio_files_cases. cbn [snd].
    rewrite Hget, Hok, Hbody, (audio_files_of_text contents Htext).
    rewrite <- spec_audio_names_skip. reflexivity.
Qed.

(** C10 on an array with a number, a string, an object without a name and
    two files. *)
Lemma C10_malformed_entries_skipped_witness :
  snd (list_audio_files mixed_listing "o" "r" "main" "a" empty_world)
  = inr (JSONResponse 200
           (JDict [("audio_files", JList [JStr "a.mp3"; JStr "c.wav"])])).
Proof.
  refine (proj2 (C10_malformed_entries_skipped mixed_listing
                   "o" "r" "main" "a" empty_world
                   (mkResponse 200 "OK" api_a [] (inr (JList mixed_array)))
                   mixed_array eq_refl eq_refl eq_refl _)).
  repeat constructor.
Defined.

(** ** The port probe *)

Lemma socket_bind_cases (host : Host) (p : Z) (s : Proc) :
  0 <= p <= 65535 ->
  socket_bind host p s =
  (with_trace s (trace s ++ [EvBind p]),
   match bind_error host p with
   | Some msg => inl (OSError msg)
   | None => inr tt
   end).
Proof.
  intros Hp. unfold socket_bind, bind, emit, with_trace.
  replace ((0 <=? p) && (p <=? 65535)) with true
    by (symmetry; apply andb_true_iff; split; apply Z.leb_le; lia).
  destruct (bind_error host p); reflexivity.
Qed.

Lemma range_from_snoc (a : Z) (count : nat) :
  range_from a (S count) = range_from a count ++ [a + Z.of_nat count].
Proof.
  revert a. induction count as [|count IH]; intros a.
  - cbn. f_equal. lia.
  - change (range_from a (S (S count)))
      with (a :: range_from (a + 1) (S count)).
    rewrite IH. cbn [range_from app]. do 3 f_equal. lia.
Qed.

(** The loop tries the ports in order and stops at the first that binds. *)
Lemma try_ports_range (host : Host) (count : nat) :
  forall (a : Z) (s : Proc),
    0 <= a -> a + Z.of_nat count <= 65536 ->
    (exists p,
        a <= p < a + Z.of_nat count
        /\ bind_error host p = None
        /\ (forall q, a <= q < p -> bind_error host q <> None)
        /\ try_ports host (range_from a count) s
           = (with_trace s (trace s ++ map EvBind (py_range a (p + 1))),
              inr (Some p)))
    \/ ((forall q, a <= q < a + Z.of_nat count -> bind_error host q <> None)
        /\ try_ports host (range_from a count) s
           = (with_trace s (trace s ++ map EvBind (range_from a count)),
              inr None)).
Proof.
  induction count as [|count IH]; intros a s Ha Hb.
  - right. split; [intros q Hq; lia|].
    cbn. unfold ret, with_trace. rewrite app_nil_r. by destruct s.
  - cbn [range_from try_ports]. unfold try_except, bind.
    rewrite socket_bind_cases by lia.
    destruct (bind_error host a) as [msg|] eqn:Hbind.
    + cbn [is_OSError].
      destruct (IH (a + 1) (with_trace s (trace s ++ [EvBind a])))
        as [(p & Hp & Hfree & Hlow & Hrun)|(Hnone & Hrun)]; try lia.
      * left. exists p. split; [lia|]. split; [exact Hfree|]. split.
        { intros q Hq. destruct (decide (q = a)) as [->|Hne];
            [congruence|apply Hlow; lia]. }
        rewrite Hrun. unfold with_trace. cbn [self now threads trace].
        rewrite <- app_assoc. unfold py_range.
        replace (Z.to_nat (p + 1 - a)) with (S (Z.to_nat (p + 1 - (a + 1))))
          by lia.
        reflexivity.
      * right. split.
        { intros q Hq. destruct (decide (q = a)) as [->|Hne];
            [congruence|apply Hnone; lia]. }
        rewrite Hrun. unfold with_trace. cbn [self now threads trace].
        rewrite <- app_assoc. reflexivity.
    + left. exists a. split; [lia|]. split; [exact Hbind|]. split.
      { intros q Hq. lia. }
      unfold ret, py_range. replace (Z.to_nat (a + 1 - a)) with 1%nat by lia.
      reflexivity.
Qed.

(** What [find_available_port] does when its fifty ports are ports. *)
Lemma find_available_port_cases (host : Host) (start_port : Z) (s : Proc) :
  0 <= start_port -> start_port + 49 <= 65535 ->
  (exists p,
      start_port <= p < start_port + 50
      /\ bind_error host p = None
      /\ (forall q, start_port <= q < p -> bind_error host q <> None)
      /\ find_available_port host start_port s
         = (with_trace s (trace s ++ map EvBind (py_range start_port (p + 1))),
            inr p))
  \/ ((forall q, start_port <= q < start_port + 50 -> bind_error host q <> None)
      /\ find_available_port host start_port s
         = (with_trace s
              (trace s ++ map EvBind (py_range start_port (start_port + 50))),
            inl (OSError ("No available port found in range "
                            +:+ pretty start_port +:+ "-"
                            +:+ pretty (start_port + 49))))).
Proof.
  intros Ha Hb.
  assert (Hrange : py_range start_port (start_port + 50)
                   = range_from start_port 50)
    by (unfold py_range; f_equal; lia).
  unfold find_available_port, bind. rewrite Hrange.
  destruct (try_ports_range host 50 start_port s)
    as [(p & Hp & Hfree & Hlow & Hrun)|(Hnone & Hrun)]; try lia.
  - left. exists p. rewrite Hrun. repeat split; try assumption; lia.
  - right. split; [intros q Hq; apply Hnone; lia|].
    rewrite Hrun. reflexivity.
Qed.

(** C6: for a start port whose fifty successors are ports,
    [find_available_port] probes start, start+1, … in order and returns the
    first port that binds: the port it returns is free, every port below it
    down to the start is taken, and the probes stop there; when none of the
    fifty ports binds it raises the [OSError] "No available port found".  The
    manager itself is not changed. *)
Theorem C6_first_free_port (host : Host) (start_port : Z) (s : Proc) :
  0 <= start_port -> start_port + 49 <= 65535 ->
  let s' := fst (find_available_port host start_port s) in
  let result := snd (find_available_port host start_port s) in
  self s' = self s
  /\ ((exists p,
         result = inr p
         /\ start_port <= p <= start_port + 49
         /\ bind_error host p = None
         /\ (forall q, start_port <= q < p -> bind_error host q <> None)
         /\ trace s' = trace s ++ map EvBind (py_range start_port (p + 1)))
      \/ (result = inl (OSError ("No available port found in range "
                                   +:+ pretty start_port +:+ "-"
                                   +:+ pretty (start_port + 49)))
          /\ (forall q, start_port <= q <= start_port + 49 ->
                        bind_error host q <> None)
          /\ trace s'
             = trace s ++ map EvBind (py_range start_port (start_port + 50))))
  /\ ((exists q, start_port <= q <= start_port + 49 /\ bind_error host q = None)
      -> exists p, result = inr p).
Proof.
  intros Ha Hb s' result. subst s' result.
  destruct (find_available_port_cases host start_port s Ha Hb)
    as [(p & Hp & Hfree & Hlow & Hrun)|(Hnone & Hrun)]; rewrite Hrun;
    cbn [fst snd with_trace self trace]; (split; [reflexivity|]); split.
  - left. exists p. repeat split; try assumption; lia.
  - intros _. exists p. reflexivity.
  - right. repeat split. intros q Hq. apply Hnone. lia.
  - intros (q & Hq & Hfree). exfalso. apply (Hnone q); [lia|exact Hfree].
Qed.

(** C6 from port 8000 on a host whose ports 8000 to 8002 are taken. *)
Lemma C6_first_free_port_witness :
  snd (find_available_port lively_host 8000 fresh_proc) = inr 8003.
Proof.
  pose proof (C6_first_free_port lively_host 8000 fresh_proc
                ltac:(lia) ltac:(lia)) as (_ & H & _).
  destruct H as [(p & Hres & Hp & Hfree & Hlow & _)|(_ & Hnone & _)].
  - rewrite Hres. f_equal.
    cbn [lively_host bind_error] in Hfree, Hlow.
    destruct (p <? 8003) eqn:Hlt; [discriminate|]. apply Z.ltb_ge in Hlt.
    destruct (decide (p = 8003)) as [->|Hne]; [reflexivity|].
    exfalso. apply (Hlow 8003); [lia|reflexivity].
  - exfalso. apply (Hnone 8003); [lia|reflexivity].
Defined.

(** ** The launch and the probe *)

(** A turn of the readiness loop raises nothing, takes time, and leaves the
    port, the thread and the count of threads as they are. *)
Lemma poll_health_frame (host : Host) (s : Proc) :
  exists s',
    poll_health host s = (s', inr tt)
    /\ port (self s') = port (self s)
    /\ server_thread (self s') = server_thread (self s)
    /\ threads s' = threads s
    /\ (now s < now s')%nat.
Proof.
  unfold poll_health, try_except, bind, get_self, requests_get_local, emit,
    time_time, advance, time_sleep, bind, emit, advance, ret, raise.
  cbn [self now threads trace].
  destruct (local_get host (now s) (health_url (port (self s))) None)
    as [[status|] took]; cbn [fst snd].
  - destruct (status =? 200); unfold set_server_started, set_self;
      eexists; (split; [reflexivity|]);
      cbn [self now threads port server_thread]; repeat split; lia.
  - eexists. split; [reflexivity|].
    cbn [self now threads port server_thread]. repeat split; lia.
Qed.

Lemma wait_until_started_frame (host : Host) (start_time turns : nat) :
  forall s,
    exists s',
      wait_until_started turns host start_time s = (s', inr tt)
      /\ port (self s') = port (self s)
      /\ server_thread (self s') = server_thread (self s)
      /\ threads s' = threads s.
Proof.
  induction turns as [|turns IH]; intros s.
  - exists s. repeat split.
  - cbn [wait_until_started]. unfold bind at 1 2, get_self, time_time.
    destruct (negb _ && _).
    + unfold bind.
      destruct (poll_health_frame host s) as (s1 & -> & Hp & Ht & Hn & _).
      destruct (IH s1) as (s' & -> & Hp' & Ht' & Hn').
      exists s'. repeat split; congruence.
    + exists s. repeat split.
Qed.

(** The turns of the loop are enough: once the clock has passed the deadline
    or the flag is set, more turns change nothing. *)
Lemma wait_until_started_enough_turns (host : Host) (start_time : nat) :
  forall turns more s,
    (start_time <= now s)%nat ->
    (SERVER_START_TIMEOUT_MS - (now s - start_time) <= turns)%nat ->
    wait_until_started (turns + more) host start_time s
    = wait_until_started turns host start_time s.
Proof.
  induction turns as [|turns IH]; intros more s Hstart Hleft.
  - destruct more as [|more]; [reflexivity|].
    cbn [wait_until_started Nat.add]. unfold bind, get_self, time_time.
    replace (now s - start_time <? SERVER_START_TIMEOUT_MS)%nat with false
      by (symmetry; apply Nat.ltb_ge; lia).
    rewrite andb_false_r. reflexivity.
  - cbn [wait_until_started Nat.add]. unfold bind at 1 2 4 5, get_self, time_time.
    destruct (negb _ && _) eqn:Hgo; [|reflexivity].
    unfold bind.
    destruct (poll_health_frame host s) as (s1 & -> & _ & _ & _ & Hclock).
    apply IH; lia.
Qed.

(** The loop of [start_server] never runs out of turns. *)
Lemma readiness_turns_suffice (host : Host) (s : Proc) (more : nat) :
  wait_until_started (SERVER_START_TIMEOUT_MS + more) host (now s) s
  = wait_until_started SERVER_START_TIMEOUT_MS host (now s) s.
Proof. apply wait_until_started_enough_turns; lia. Qed.

(** What [start_server] does, by the liveness of the last thread and the
    outcome of the port probe. *)
Lemma start_server_cases (host : Host) (s : Proc) :
  start_server host s =
  if thread_is_alive host (server_thread (self s)) then (s, inr tt)
  else
    match find_available_port host 8000 s with
    | (s1, inl e) => (s1, inl e)
    | (s1, inr p) =>
        wait_until_started SERVER_START_TIMEOUT_MS host (now s1)
          (mkProc (mkServerManager (Some p) (Some (threads s1)) false)
             (now s1) (S (threads s1))
             (trace s1 ++ [EvThreadStart (threads s1) (Some p)]))
    end.
Proof.
  unfold start_server, bind at 1, get_self.
  destruct (thread_is_alive host (server_thread (self s))); [reflexivity|].
  unfold bind at 1.
  destruct (find_available_port host 8000 s) as [s1 [e|p]]; reflexivity.
Qed.

(** What [is_server_running] does, by the port of the manager and the answer
    of the host. *)
Lemma is_server_running_cases (host : Host) (s : Proc) :
  let u := health_url (port (self s)) in
  let answer := local_get host (now s) u (Some 1000%nat) in
  is_server_running host s =
  if truthy_port (port (self s)) then
    (mkProc (self s) (now s + S (snd answer)) (threads s)
       (trace s ++ [EvGet u (Some 1000%nat)]),
     inr match fst answer with
         | Some status => status =? 200
         | None => false
         end)
  else (s, inr false).
Proof.
  intros u answer.
  unfold is_server_running, bind at 1, get_self.
  destruct (truthy_port (port (self s))); [|reflexivity].
  cbn [negb]. fold u.
  unfold try_except, bind, requests_get_local, bind, emit, time_time, advance,
    ret, raise.
  cbn [self now threads trace]. fold answer.
  destruct (fst answer); reflexivity.
Qed.

Lemma is_server_running_self (host : Host) (s : Proc) :
  self (fst (is_server_running host s)) = self s.
Proof.
  rewrite is_server_running_cases.
  destruct (truthy_port (port (self s))); reflexivity.
Qed.

(** A port that the manager holds came out of the probe from 8000. *)
Lemma reachable_port_range (s : Proc) :
  reachable s -> forall p, port (self s) = Some p -> 8000 <= p <= 8049.
Proof.
  induction 1 as [clock|host s Hs IH|host s Hs IH]; intros p.
  - discriminate.
  - rewrite start_server_cases.
    destruct (thread_is_alive host _); [apply IH|].
    destruct (find_available_port_cases host 8000 s)
      as [(q & Hq & _ & _ & Hrun)|(_ & Hrun)]; try lia; rewrite Hrun.
    + match goal with
      | |- context [wait_until_started ?n host ?t ?s0] =>
          destruct (wait_until_started_frame host t n s0)
            as (s' & -> & Hport & _)
      end.
      cbn [fst]. rewrite Hport. cbn [self port]. intros [= <-]. lia.
    + cbn [fst with_trace self]. apply IH.
  - rewrite is_server_running_self. apply IH.
Qed.

(** C7: in every state of the manager that a process reaches,
    [is_server_running] returns [False] without touching the network when no
    port was ever assigned; otherwise it issues one GET of the health URL of
    the assigned port with a timeout of one second and returns [True] exactly
    when that GET is answered with status 200.  The stored flag
    [server_started] has no part in the result. *)
Theorem C7_is_server_running_live (host : Host) (s : Proc) :
  reachable s ->
  (port (self s) = None -> is_server_running host s = (s, inr false))
  /\ (forall p,
        port (self s) = Some p ->
        let u := "http://localhost:" +:+ pretty p +:+ "/health" in
        let answer := local_get host (now s) u (Some 1000%nat) in
        exists running,
          is_server_running host s
          = (mkProc (self s) (now s + S (snd answer)) (threads s)
               (trace s ++ [EvGet u (Some 1000%nat)]),
             inr running)
          /\ (running = true <-> fst answer = Some 200))
  /\ (forall flag,
        snd (is_server_running host
               (mkProc (mkServerManager (port (self s)) (server_thread (self s))
                          flag)
                  (now s) (threads s) (trace s)))
        = snd (is_server_running host s)).
Proof.
  intros Hreach. split; [|split].
  - intros Hnone. rewrite is_server_running_cases, Hnone. reflexivity.
  - intros p Hp u answer.
    pose proof (reachable_port_range s Hreach p Hp) as Hrange.
    rewrite is_server_running_cases, Hp.
    cbn [truthy_port health_url str_port]. fold u answer.
    replace (p =? 0) with false by (symmetry; apply Z.eqb_neq; lia).
    cbn [negb].
    exists (match fst answer with
            | Some status => status =? 200
            | None => false
            end).
    split; [reflexivity|].
    destruct (fst answer) as [status|].
    + rewrite Z.eqb_eq. split; congruence.
    + split; discriminate.
  - intros flag. rewrite !is_server_running_cases.
    cbn [self port now threads trace].
    destruct (truthy_port (port (self s))); reflexivity.
Qed.

(** C7 after a launch on a host where the service answers. *)
Lemma C7_is_server_running_live_witness :
  snd (is_server_running lively_host (fst (start_server lively_host fresh_proc)))
  = inr true.
Proof.
  pose proof (C7_is_server_running_live lively_host
                (fst (start_server lively_host fresh_proc))
                (reachable_start_server lively_host fresh_proc
                   (reachable_init 0))) as (_ & H & _).
  destruct (H 8003 ltac:(by vm_compute)) as (running & -> & Hiff).
  cbn [snd]. f_equal. apply Hiff. by vm_compute.
Defined.

(** C8: when the last thread is not alive and none of the ports 8000 to 8049
    binds, the [OSError] of [find_available_port] comes out of
    [start_server] as it is, and the manager keeps its port, its thread and
    its flag; no thread is started. *)
Theorem C8_no_port_is_raised (host : Host) (s : Proc) :
  thread_is_alive host (server_thread (self s)) = false ->
  (forall q, 8000 <= q <= 8049 -> bind_error host q <> None) ->
  let e := OSError "No available port found in range 8000-8049" in
  snd (find_available_port host 8000 s) = inl e
  /\ snd (start_server host s) = inl e
  /\ self (fst (start_server host s)) = self s
  /\ threads (fst (start_server host s)) = threads s
  /\ trace (fst (start_server host s))
     = trace s ++ map EvBind (py_range 8000 8050).
Proof.
  intros Hdead Hbusy e.
  rewrite start_server_cases, Hdead.
  destruct (find_available_port_cases host 8000 s)
    as [(p & Hp & Hfree & _)|(_ & Hrun)]; try lia.
  - exfalso. apply (Hbusy p); [lia|exact Hfree].
  - rewrite Hrun. cbn [fst snd with_trace self threads trace].
    repeat split; by vm_compute.
Qed.

(** C8 on a host where every port is taken. *)
Lemma C8_no_port_is_raised_witness :
  snd (start_server busy_host launched_proc)
  = inl (OSError "No available port found in range 8000-8049")
  /\ self (fst (start_server busy_host launched_proc)) = self launched_proc.
Proof.
  pose proof (C8_no_port_is_raised busy_host launched_proc eq_refl
                ltac:(discriminate)) as (_ & H1 & H2 & _).
  split; [exact H1|exact H2].
Defined.

(** C9: while the thread of the last launch is alive, [start_server] returns
    at once: no port is probed, no thread is started, and the manager and the
    process around it are exactly as before. *)
Theorem C9_start_server_alive_noop (host : Host) (s : Proc) (th : nat) :
  server_thread (self s) = Some th ->
  is_alive host th = true ->
  start_server host s = (s, inr tt).
Proof.
  intros Hth Halive. rewrite start_server_cases, Hth.
  cbn [thread_is_alive]. rewrite Halive. reflexivity.
Qed.

(** C9 on a launched process whose thread lives. *)
Lemma C9_start_server_alive_noop_witness :
  start_server lively_host launched_proc = (launched_proc, inr tt).
Proof.
  exact (C9_start_server_alive_noop lively_host launched_proc 0%nat
           eq_refl eq_refl).
Defined.

(** ** At the edges of the domains above *)

(** Past the last port the probe meets CPython's range check, which
    [except OSError] does not catch. *)
Example find_available_port_past_65535 :
  snd (find_available_port busy_host 65500 fresh_proc)
  = inl (OverflowError "bind(): port must be 0-65535.")
  /\ length (trace (fst (find_available_port busy_host 65500 fresh_proc)))
     = 37%nat.
Proof. split; by vm_compute. Qed.

(** A file entry whose name is [null] has no [lower]: the comprehension
    raises, and the exception leaves the route. *)
Example audio_files_of_null_name :
  audio_files_of [JDict [("name", JNull); ("type", JStr "file")]]
  = inl (AttributeError "'NoneType' object has no attribute 'lower'").
Proof. reflexivity. Qed.

(** A port of 0 counts as no port; no launch assigns it. *)
Example is_server_running_port_zero :
  is_server_running lively_host
    (mkProc (mkServerManager (Some 0) None false) 0 0 [])
  = (mkProc (mkServerManager (Some 0) None false) 0 0 [], inr false).
Proof. reflexivity. Qed.

(** On a full disk the file that was there is left empty, and the route
    answers 500. *)
Example get_audio_file_full_disk :
  let result :=
    serve (get_audio_file two_dirs_full_disk "o" "r" "main" "a/x.mp3")
      cached_world in
  fs cached_world !! "audio_cache/x.mp3" = Some bytes_old
  /\ fs (fst result) !! "audio_cache/x.mp3" = Some []
  /\ snd result
     = inr (500, Json (error_body "[Errno 28] No space left on device")).
Proof. split; [by vm_compute|]. split; by vm_compute. Qed.

(** Under a requests before 2.27 a listing that is not JSON is not answered:
    the [ValueError] of the decoder leaves the route. *)
Example list_audio_files_older_requests :
  snd (list_audio_files not_json_older_requests "o" "r" "main" "a" empty_world)
  = inl (ValueError "Expecting value: line 1 column 1 (char 0)").
Proof. by vm_compute. Qed.

(** ** Further properties of the file route *)

Lemma basename_no_slash_id (s : string) :
  rfind slash s = -1 -> basename s = s.
Proof. intros H. unfold basename. rewrite H. reflexivity. Qed.

Lemma rfind_app_slash (a b : string) : 0 <= rfind slash (a +:+ String slash b).
Proof.
  induction a as [|x a IH].
  - change ("" +:+ String slash b) with (String slash b). cbn [rfind].
    pose proof (rfind_lower_bound slash b).
    destruct (0 <=? rfind slash b) eqn:Hi; [apply Z.leb_le in Hi; lia|].
    rewrite Ascii.eqb_refl. lia.
  - change (String x a +:+ String slash b)
      with (String x (a +:+ String slash b)).
    cbn [rfind].
    destruct (0 <=? rfind slash (a +:+ String slash b)) eqn:Hi;
      [lia|apply Z.leb_gt in Hi; lia].
Qed.

(** [basename] undoes the joining of a directory and a name. *)
Lemma basename_join (a b : string) :
  rfind slash b = -1 -> basename (a +:+ String slash b) = b.
Proof.
  intros Hb. induction a as [|x a IH].
  - change ("" +:+ String slash b) with (String slash b).
    rewrite basename_cons, Hb, Ascii.eqb_refl. reflexivity.
  - change (String x a +:+ String slash b)
      with (String x (a +:+ String slash b)).
    rewrite basename_cons.
    replace (0 <=? rfind slash (a +:+ String slash b)) with true
      by (symmetry; apply Z.leb_le, rfind_app_slash).
    exact IH.
Qed.

Lemma lstrip_idempotent (c : ascii) (s : string) :
  lstrip c (lstrip c s) = lstrip c s.
Proof.
  induction s as [|a s IH]; [reflexivity|].
  cbn [lstrip]. destruct (Ascii.eqb a c) eqn:Ha; [exact IH|].
  cbn [lstrip]. rewrite Ha. reflexivity.
Qed.

Lemma basename_lstrip (p : string) :
  basename (lstrip slash p) = basename p.
Proof.
  induction p as [|a p IH]; [reflexivity|].
  cbn [lstrip]. destruct (Ascii.eqb a slash) eqn:Ha; [|reflexivity].
  rewrite IH, basename_cons, Ha.
  pose proof (rfind_lower_bound slash p).
  destruct (0 <=? rfind slash p) eqn:Hi; [reflexivity|].
  apply Z.leb_gt in Hi. apply basename_no_slash_id. lia.
Qed.

(** X1: a request to the file route never lets an exception out, and it
    changes at most one file: the one directly in the cache directory that
    is named by the base name of the requested path.  A fetch that fails, in
    transport or by a status of the 4xx or 5xx class, and an [open] that
    fails leave every file as it was; a write that fails after [open] is
    answered 500 and leaves under that name the bytes of the body that were
    written before the failure, not what the file held before. *)
Theorem get_audio_file_touches_one_file (out : Outside)
    (owner repo branch file_path : string) (w : World) :
  let audio_url :=
    GITHUB_RAW_BASE_URL owner repo branch (lstrip slash file_path) in
  let key := "audio_cache/" +:+ basename file_path in
  let answer := requests_get out (length (requested w)) audio_url in
  let result := serve (get_audio_file out owner repo branch file_path) w in
  rfind slash (basename file_path) = -1
  /\ (exists payload, snd result = inr payload)
  /\ (forall other, other <> key -> fs (fst result) !! other = fs w !! other)
  /\ ((exists msg, answer = inl msg)
      \/ (exists r, answer = inr r /\ 400 <= status_code r < 600)
      \/ (exists msg, open_wb out key = Some (OpenFails msg)) ->
      fs (fst result) = fs w)
  /\ (forall r msg written,
        answer = inr r -> ~ (400 <= status_code r < 600) ->
        open_wb out key = Some (WriteFails msg written) ->
        fs (fst result) = <[key := take written (content r)]> (fs w)
        /\ snd result = inr (500, Json (error_body msg))).
Proof.
  intros audio_url key answer result. split; [apply basename_no_slash|].
  subst result. rewrite serve_get_audio_file_cases. fold audio_url key answer.
  destruct answer as [msg|r] eqn:Ha.
  { cbn [fst snd fs]. split; [eauto|]. split; [reflexivity|].
    split; [reflexivity|]. intros ? ? ? [=]. }
  destruct (raise_for_status r) as [e|] eqn:Hstatus.
  { cbn [fst snd fs]. split; [eauto|]. split; [reflexivity|].
    split; [reflexivity|]. intros r' msg written' [= <-] Hr.
    apply raise_for_status_None in Hr. congruence. }
  pose proof (proj1 (raise_for_status_None r) Hstatus) as Hok.
  destruct (open_wb out key) as [[msg|msg written]|]; cbn [fst snd fs].
  - split; [eauto|]. split; [reflexivity|]. split; [reflexivity|].
    intros ? ? ? _ _ [=].
  - split; [eauto|]. split.
    { intros other Hother. apply lookup_insert_ne. congruence. }
    split.
    { intros [[m [=]]|[(r' & [= <-] & Hr)|[m [=]]]]. contradiction. }
    intros r' m k [= <-] _ [= <- <-]. split; reflexivity.
  - split; [eauto|]. split.
    { intros other Hother. apply lookup_insert_ne. congruence. }
    split.
    { intros [[m [=]]|[(r' & [= <-] & Hr)|[m [=]]]]. contradiction. }
    intros ? ? ? _ _ [=].
Qed.

(** X2: leading slashes of the requested path do not matter to either
    route: the request is the one for the path without them. *)
Theorem routes_ignore_leading_slashes (out : Outside)
    (owner repo branch path : string) (w : World) :
  get_audio_file out owner repo branch path w
  = get_audio_file out owner repo branch (lstrip slash path) w
  /\ list_audio_files out owner repo branch path w
     = list_audio_files out owner repo branch (lstrip slash path) w.
Proof.
  split.
  - unfold get_audio_file, download_audio_from_github.
    rewrite lstrip_idempotent, basename_lstrip. reflexivity.
  - unfold list_audio_files. rewrite lstrip_idempotent. reflexivity.
Qed.

(** X3: for a file picked from a listing, whose name holds no slash, the
    path that the front end asks for has that name as its base name,
    whatever the directory: the proxy keeps the file at
    [audio_cache/<name>]. *)
Theorem selected_file_cache_path (path name : string) :
  rfind slash name = -1 ->
  basename (selected_file_path path name) = name
  /\ os_path_join AUDIO_CACHE_DIR (basename (selected_file_path path name))
     = "audio_cache/" +:+ name.
Proof.
  intros Hname.
  assert (Hbase : basename (selected_file_path path name) = name).
  { unfold selected_file_path. destruct (String.eqb path "").
    - apply basename_no_slash_id, Hname.
    - apply (basename_join path name Hname). }
  split; [exact Hbase|]. rewrite local_path_basename, Hbase. reflexivity.
Qed.

Lemma selected_file_cache_path_witness :
  basename (selected_file_path "albums/live" "x.mp3") = "x.mp3"
  /\ os_path_join AUDIO_CACHE_DIR
       (basename (selected_file_path "albums/live" "x.mp3"))
     = "audio_cache/x.mp3".
Proof. exact (selected_file_cache_path "albums/live" "x.mp3" eq_refl). Defined.

(** ** Further properties of the listing *)

Lemma is_audio_item_not_text (item : json) :
  file_name_is_text item = false ->
  exists msg, is_audio_item item = inl (AttributeError msg).
Proof.
  destruct item as [| | | | |l|d]; try discriminate.
  unfold file_name_is_text, is_audio_item.
  destruct (py_eq_str (dict_get "type" d) "file"); [|discriminate].
  destruct (dict_get "name" d) as [[| | | |name| |]|]; cbn [default];
    try discriminate; eauto.
Qed.

Lemma audio_files_of_not_text (contents : list json) :
  Exists (fun item => file_name_is_text item = false) contents ->
  exists msg, audio_files_of contents = inl (AttributeError msg).
Proof.
  induction contents as [|item rest IH]; intros Hex.
  - inversion Hex.
  - cbn [audio_files_of].
    destruct (file_name_is_text item) eqn:Htext.
    + assert (Hrest : Exists (fun item => file_name_is_text item = false) rest).
      { inversion Hex; [congruence|assumption]. }
      destruct (IH Hrest) as [msg Hmsg].
      rewrite (is_audio_item_text _ Htext). cbn [bind_exn].
      destruct (spec_audio_name item) as [name|] eqn:Hname.
      * rewrite bool_decide_eq_true_2 by eauto.
        rewrite (getitem_name_audio _ _ Hname), Hmsg. cbn [bind_exn]. eauto.
      * rewrite bool_decide_eq_false_2 by (intros [? ?]; discriminate).
        eauto.
    + destruct (is_audio_item_not_text _ Htext) as [msg ->].
      cbn [bind_exn]. eauto.
Qed.

Lemma text_or_not (contents : list json) :
  Forall (fun item => file_name_is_text item = true) contents
  \/ Exists (fun item => file_name_is_text item = false) contents.
Proof.
  induction contents as [|item rest [IH|IH]].
  - left. constructor.
  - destruct (file_name_is_text item) eqn:Htext.
    + left. constructor; assumption.
    + right. apply Exists_cons_hd. exact Htext.
  - right. apply Exists_cons_tl. exact IH.
Qed.

Lemma spec_audio_name_Some (item : json) (name : string) :
  spec_audio_name item = Some name ->
  exists d,
    item = JDict d
    /\ dict_get "type" d = Some (JStr "file")
    /\ dict_get "name" d = Some (JStr name)
    /\ endswith_any (lower name) SUPPORTED_FORMATS = true.
Proof.
  destruct item as [| | | | |l|d]; try discriminate.
  unfold spec_audio_name.
  destruct (dict_get "type" d) as [[| | | |t| |]|] eqn:Htype;
    try discriminate.
  destruct (dict_get "name" d) as [[| | | |n| |]|] eqn:Hn; try discriminate.
  destruct (String.eqb t "file") eqn:Ht; [|discriminate].
  apply String.eqb_eq in Ht. subst t.
  cbn [andb]. unfold endswith_any, SUPPORTED_FORMATS.
  destruct (existsb (endswith (lower n)) _) eqn:Hext; [|discriminate].
  intros [= <-]. exists d. repeat split; first [assumption|reflexivity].
Qed.

(** X4: when some object of type "file" in the array has a name that is not
    a string, the listing route answers nothing: the comprehension raises
    [AttributeError], which [except requests.RequestException] does not
    catch, and the exception leaves the route after its one GET. *)
Theorem list_audio_files_raises_on_bad_name (out : Outside)
    (owner repo branch path : string) (w : World) (r : Response)
    (contents : list json) :
  let api_url := GITHUB_API_BASE_URL owner repo (lstrip slash path) branch in
  requests_get out (length (requested w)) api_url = inr r ->
  raise_for_status r = None ->
  json_body r = inr (JList contents) ->
  Exists (fun item => file_name_is_text item = false) contents ->
  exists msg,
    list_audio_files out owner repo branch path w
    = (mkWorld (fs w) (requested w ++ [api_url]), inl (AttributeError msg)).
Proof.
  intros api_url Hget Hok Hbody Hbad.
  destruct (audio_files_of_not_text contents Hbad) as [msg Hmsg].
  exists msg. rewrite list_audio_files_cases. fold api_url.
  rewrite Hget, Hok, Hbody, Hmsg. reflexivity.
Qed.

Lemma list_audio_files_raises_on_bad_name_witness :
  exists msg,
    list_audio_files null_name_listing "o" "r" "main" "a" empty_world
    = (mkWorld (fs empty_world) (requested empty_world ++ [api_a]),
       inl (AttributeError msg)).
Proof.
  apply (list_audio_files_raises_on_bad_name null_name_listing
           "o" "r" "main" "a" empty_world
           (mkResponse 200 "OK" api_a [] (inr (JList null_name_array)))
           null_name_array eq_refl eq_refl eq_refl).
  apply Exists_cons_tl, Exists_cons_hd. reflexivity.
Defined.

Lemma audio_files_of_members (contents names : list json) :
  audio_files_of contents = inr names ->
  (length names <= length contents)%nat
  /\ forall v, In v names ->
       exists d name,
         v = JStr name
         /\ In (JDict d) contents
         /\ dict_get "type" d = Some (JStr "file")
         /\ dict_get "name" d = Some (JStr name)
         /\ endswith_any (lower name) SUPPORTED_FORMATS = true.
Proof.
  intros Hrun.
  destruct (text_or_not contents) as [Htext|Hbad].
  2: { destruct (audio_files_of_not_text contents Hbad) as [msg Hmsg].
       congruence. }
  rewrite (audio_files_of_text contents Htext) in Hrun.
  injection Hrun as <-. clear Htext. unfold spec_audio_names.
  induction contents as [|item rest IH]; [split; [cbn; lia|intros v []]|].
  cbn [omap list_omap]. fold (omap spec_audio_name rest).
  destruct IH as [IHlen IHin].
  destruct (spec_audio_name item) as [name|] eqn:Hname.
  - split; [cbn [fmap list_fmap length] in *; lia|].
    intros v [<-|Hv].
    + destruct (spec_audio_name_Some _ _ Hname) as (d & -> & Ht & Hn & Hext).
      exists d, name. repeat split; try assumption. left. reflexivity.
    + destruct (IHin v Hv) as (d & n & -> & Hin & Hrest).
      exists d, n. repeat split; try apply Hrest. right. exact Hin.
  - split; [cbn [length]; lia|].
    intros v Hv. destruct (IHin v Hv) as (d & n & -> & Hin & Hrest).
    exists d, n. repeat split; try apply Hrest. right. exact Hin.
Qed.

(** X5: whenever the comprehension returns, for whatever array, it lists
    nothing that the array does not hold: every element is the name, a
    string, of an object of the array whose type is "file" and whose
    lower-cased name ends with a supported extension; and there are at most
    as many names as entries. *)
Theorem audio_files_of_sound (contents names : list json) :
  audio_files_of contents = inr names ->
  (length names <= length contents)%nat
  /\ forall v, In v names ->
       exists d name,
         v = JStr name
         /\ In (JDict d) contents
         /\ dict_get "type" d = Some (JStr "file")
         /\ dict_get "name" d = Some (JStr name)
         /\ endswith_any (lower name) SUPPORTED_FORMATS = true.
Proof. exact (audio_files_of_members contents names). Qed.

Lemma audio_files_of_sound_witness :
  (length [JStr "a.mp3"; JStr "B.OGG"] <= length plain_array)%nat
  /\ forall v, In v [JStr "a.mp3"; JStr "B.OGG"] ->
       exists d name,
         v = JStr name
         /\ In (JDict d) plain_array
         /\ dict_get "type" d = Some (JStr "file")
         /\ dict_get "name" d = Some (JStr name)
         /\ endswith_any (lower name) SUPPORTED_FORMATS = true.
Proof.
  exact (audio_files_of_sound plain_array [JStr "a.mp3"; JStr "B.OGG"] eq_refl).
Defined.

(** ** Further properties of the port probe *)

Lemma socket_bind_out_of_range (host : Host) (p : Z) (s : Proc) :
  ~ (0 <= p <= 65535) ->
  socket_bind host p s
  = (with_trace s (trace s ++ [EvBind p]), inl (OverflowError "bind(): port must be 0-65535.")).
Proof.
  intros Hp. unfold socket_bind, bind, emit, with_trace.
  replace ((0 <=? p) && (p <=? 65535)) with false; [reflexivity|].
  symmetry. apply andb_false_iff.
  destruct (Z.leb_spec 0 p); [right; apply Z.leb_gt; lia|left; reflexivity].
Qed.

(** The loop over any ports: it ends with a free port of the 16-bit range
    among those it was given, with none, or with the [OverflowError] of a
    number that is no port; it touches nothing of the process but the
    trace. *)
Lemma try_ports_any (host : Host) (count : nat) :
  forall (a : Z) (s : Proc),
    exists t,
      fst (try_ports host (range_from a count) s) = with_trace s t
      /\ match snd (try_ports host (range_from a count) s) with
         | inr (Some p) =>
             a <= p < a + Z.of_nat count
             /\ 0 <= p <= 65535
             /\ bind_error host p = None
         | inr None => True
         | inl e => e = OverflowError "bind(): port must be 0-65535."
         end.
Proof.
  induction count as [|count IH]; intros a s.
  - exists (trace s). cbn. split; [by destruct s|exact I].
  - cbn [range_from try_ports]. unfold try_except, bind.
    destruct (decide (0 <= a <= 65535)) as [Ha|Ha].
    + rewrite socket_bind_cases by exact Ha.
      destruct (bind_error host a) as [msg|] eqn:Hbind.
      * cbn [is_OSError].
        destruct (IH (a + 1) (with_trace s (trace s ++ [EvBind a])))
          as (t & Hfst & Hsnd).
        exists t. split; [rewrite Hfst; reflexivity|].
        destruct (snd (try_ports host (range_from (a + 1) count) _))
          as [e|[p|]]; try exact Hsnd.
        destruct Hsnd as (Hp & Hvalid & Hfree). repeat split; try assumption; lia.
      * exists (trace s ++ [EvBind a]). unfold ret. cbn [fst snd].
        split; [reflexivity|]. repeat split; try assumption; lia.
    + rewrite socket_bind_out_of_range by exact Ha.
      cbn [is_OSError is_RequestException fst snd].
      exists (trace s ++ [EvBind a]). split; reflexivity.
Qed.

(** X6: whatever the start port, [find_available_port] changes nothing of the
    manager and starts no thread; a port it returns is one of the fifty from
    the start, lies in the 16-bit range and was free; and it raises nothing
    but its own [OSError] or the [OverflowError] of [bind]. *)
Theorem find_available_port_outcomes (host : Host) (start_port : Z) (s : Proc) :
  let result := find_available_port host start_port s in
  self (fst result) = self s
  /\ threads (fst result) = threads s
  /\ now (fst result) = now s
  /\ match snd result with
     | inr p =>
         start_port <= p <= start_port + 49
         /\ 0 <= p <= 65535
         /\ bind_error host p = None
     | inl e =>
         e = OSError ("No available port found in range "
                        +:+ pretty start_port +:+ "-"
                        +:+ pretty (start_port + 49))
         \/ e = OverflowError "bind(): port must be 0-65535."
     end.
Proof.
  intros result. subst result. unfold find_available_port, bind.
  assert (Hrange : py_range start_port (start_port + 50)
                   = range_from start_port 50)
    by (unfold py_range; f_equal; lia).
  rewrite Hrange.
  destruct (try_ports_any host 50 start_port s) as (t & Hfst & Hsnd).
  destruct (try_ports host (range_from start_port 50) s) as [s1 [e|[p|]]];
    cbn [fst snd] in *; subst s1; unfold ret, raise; cbn [fst snd with_trace
    self threads now].
  - repeat split. right. exact Hsnd.
  - repeat split; try apply Hsnd; lia.
  - repeat split. left. reflexivity.
Qed.

(** ** Further properties of the launch *)

















(** ** What the manager keeps, and the front end around it *)

Lemma manager_ok_init (clock : nat) :
  manager_ok (mkProc ServerManager_init clock 0 []).
Proof.
  unfold manager_ok. cbn. repeat split; try discriminate; try reflexivity.
Qed.

(** How [start_server] ends on a manager in order: normally, with a port and
    still in order, or with the [OSError] of the probe and nothing changed
    in the manager. *)
Lemma start_server_outcome (host : Host) (s : Proc) :
  manager_ok s ->
  (exists s',
      start_server host s = (s', inr tt)
      /\ manager_ok s'
      /\ (exists p, port (self s') = Some p))
  \/ (exists s',
        start_server host s
        = (s', inl (OSError "No available port found in range 8000-8049"))
        /\ self s' = self s
        /\ threads s' = threads s).
Proof.
  intros Hok. pose proof Hok as (Hrange & Hboth & Hflag & Hthread).
  rewrite start_server_cases.
  destruct (thread_is_alive host (server_thread (self s))) eqn:Halive.
  - left. exists s. split; [reflexivity|]. split; [exact Hok|].
    destruct (port (self s)) as [p|] eqn:Hp; [eauto|].
    destruct Hboth as [Hnone _]. rewrite (Hnone eq_refl) in Halive.
    discriminate.
  - destruct (find_available_port_cases host 8000 s)
      as [(p & Hp & _ & _ & Hrun)|(_ & Hrun)]; try lia; rewrite Hrun.
    + left.
      match goal with
      | |- context [wait_until_started ?n host ?t ?s0] =>
          destruct (wait_until_started_frame host t n s0)
            as (s' & -> & Hport & Hth & Hthreads)
      end.
      cbn [self port server_thread threads with_trace] in *.
      exists s'. split; [reflexivity|]. split; [|eauto].
      unfold manager_ok. rewrite Hport, Hth, Hthreads.
      refine (conj _ (conj _ (conj _ _))).
      * intros q [= <-]. lia.
      * split; discriminate.
      * intros _. discriminate.
      * intros th [= <-]. lia.
    + right. eexists. split; [by vm_compute|]. split; reflexivity.
Qed.

Lemma is_server_running_outcome (host : Host) (s : Proc) :
  exists s' running,
    is_server_running host s = (s', inr running)
    /\ self s' = self s
    /\ threads s' = threads s
    /\ (running = true -> truthy_port (port (self s)) = true).
Proof.
  rewrite is_server_running_cases.
  destruct (truthy_port (port (self s))); eexists _, _;
    (split; [reflexivity|]); cbn [self threads]; repeat split.
  discriminate.
Qed.

Lemma manager_ok_same (s s' : Proc) :
  self s' = self s -> threads s' = threads s -> manager_ok s -> manager_ok s'.
Proof. unfold manager_ok. intros -> ->. exact id. Qed.

Lemma ensure_server_running_cases (host : Host) (s : Proc) :
  ensure_server_running host s =
  match is_server_running host s with
  | (s1, inr true) => (s1, inr tt)
  | (s1, inr false) =>
      match start_server host s1 with
      | (s2, inr _) =>
          (mkProc (self s2) (now s2 + 1000) (threads s2)
             (trace s2 ++ [EvSleep 1000]), inr tt)
      | (s2, inl e) => (s2, inl e)
      end
  | (s1, inl e) => (s1, inl e)
  end.
Proof.
  unfold ensure_server_running, bind at 1.
  destruct (is_server_running host s) as [s1 [e|[|]]]; reflexivity.
Qed.

Lemma ensure_server_running_outcome (host : Host) (s : Proc) :
  manager_ok s ->
  (exists s',
      ensure_server_running host s = (s', inr tt)
      /\ manager_ok s'
      /\ (exists p, port (self s') = Some p))
  \/ (exists s',
        ensure_server_running host s
        = (s', inl (OSError "No available port found in range 8000-8049"))
        /\ self s' = self s
        /\ threads s' = threads s).
Proof.
  intros Hok. rewrite ensure_server_running_cases.
  destruct (is_server_running_outcome host s)
    as (s1 & running & -> & Hself & Hthreads & Htruthy).
  pose proof (manager_ok_same s s1 Hself Hthreads Hok) as Hok1.
  destruct running.
  - left. exists s1. split; [reflexivity|]. split; [exact Hok1|].
    rewrite Hself. specialize (Htruthy eq_refl).
    destruct (port (self s)) as [p|]; [eauto|discriminate].
  - destruct (start_server_outcome host s1 Hok1)
      as [(s2 & -> & Hok2 & Hport)|(s2 & -> & Hself2 & Hthreads2)].
    + left. eexists. split; [reflexivity|]. split; [|exact Hport].
      eapply manager_ok_same; [| |exact Hok2]; reflexivity.
    + right. exists s2. split; [reflexivity|]. split; congruence.
Qed.

(** X10: the manager stays in order.  After [__init__], and after every
    [start_server] (also one that raises), [is_server_running] and
    [ensure_server_running] on whatever host: a port it holds is one of 8000
    to 8049, it holds a port exactly when it holds a thread, the flag is set
    only when it holds a port, and its thread is one the process started. *)
Theorem manager_ok_invariant :
  (forall clock, manager_ok (mkProc ServerManager_init clock 0 []))
  /\ forall host s,
       manager_ok s ->
       manager_ok (fst (start_server host s))
       /\ manager_ok (fst (is_server_running host s))
       /\ manager_ok (fst (ensure_server_running host s)).
Proof.
  split; [exact manager_ok_init|]. intros host s Hok. split; [|split].
  - destruct (start_server_outcome host s Hok)
      as [(s' & -> & Hok' & _)|(s' & -> & Hself & Hthreads)].
    + exact Hok'.
    + exact (manager_ok_same s s' Hself Hthreads Hok).
  - destruct (is_server_running_outcome host s)
      as (s' & running & -> & Hself & Hthreads & _).
    exact (manager_ok_same s s' Hself Hthreads Hok).
  - destruct (ensure_server_running_outcome host s Hok)
      as [(s' & -> & Hok' & _)|(s' & -> & Hself & Hthreads)].
    + exact Hok'.
    + exact (manager_ok_same s s' Hself Hthreads Hok).
Qed.

Lemma manager_ok_invariant_witness :
  manager_ok (fst (start_server lively_host fresh_proc))
  /\ manager_ok (fst (is_server_running lively_host fresh_proc))
  /\ manager_ok (fst (ensure_server_running lively_host fresh_proc)).
Proof.
  exact (proj2 manager_ok_invariant lively_host fresh_proc
           (proj1 manager_ok_invariant 0%nat)).
Defined.

(** X11: [is_server_running] never raises and never changes the manager, in
    any state: it issues no request or the one GET with the timeout of a
    second, and it answers [True] only for a manager that holds a port other
    than 0. *)
Theorem is_server_running_never_raises (host : Host) (s : Proc) :
  exists s' running,
    is_server_running host s = (s', inr running)
    /\ self s' = self s
    /\ threads s' = threads s
    /\ (trace s' = trace s
        \/ trace s' = trace s ++ [EvGet (health_url (port (self s)))
                                   (Some 1000%nat)])
    /\ (running = true -> exists p, port (self s) = Some p /\ p <> 0).
Proof.
  rewrite is_server_running_cases.
  destruct (port (self s)) as [p|] eqn:Hp; cbn [truthy_port].
  - destruct (p =? 0) eqn:H0; cbn [negb]; eexists _, _;
      (split; [reflexivity|]); cbn [self threads trace].
    + repeat split; [left; reflexivity|discriminate].
    + apply Z.eqb_neq in H0. repeat split; [right; reflexivity|eauto].
  - eexists _, _. split; [reflexivity|].
    repeat split; [left; reflexivity|discriminate].
Qed.

(** X12: the restart of the front end cannot relaunch while the thread of
    the last launch is alive.  If the probe finds the service down but that
    thread lives, [ensure_server_running] returns normally with the manager
    as it was and no thread started: all it did is the probe and the sleep of
    a second. *)
Theorem ensure_server_running_cannot_relaunch (host : Host) (s : Proc)
    (th : nat) :
  server_thread (self s) = Some th ->
  is_alive host th = true ->
  snd (is_server_running host s) = inr false ->
  exists s',
    ensure_server_running host s = (s', inr tt)
    /\ self s' = self s
    /\ threads s' = threads s
    /\ trace s' = trace (fst (is_server_running host s)) ++ [EvSleep 1000].
Proof.
  intros Hth Halive Hdown. rewrite ensure_server_running_cases.
  pose proof (is_server_running_self host s) as Hself.
  destruct (is_server_running_outcome host s)
    as (s1 & running & Hrun & _ & Hthreads & _).
  rewrite Hrun in *. cbn [fst snd] in *. injection Hdown as ->.
  rewrite start_server_cases, Hself, Hth. cbn [thread_is_alive].
  rewrite Halive. eexists. split; [reflexivity|].
  cbn [self threads trace]. repeat split; assumption.
Qed.

Lemma ensure_server_running_cannot_relaunch_witness :
  exists s',
    ensure_server_running hung_host launched_proc = (s', inr tt)
    /\ self s' = self launched_proc
    /\ threads s' = threads launched_proc
    /\ trace s'
       = trace (fst (is_server_running hung_host launched_proc))
           ++ [EvSleep 1000].
Proof.
  exact (ensure_server_running_cannot_relaunch hung_host launched_proc 0%nat
           eq_refl eq_refl eq_refl).
Defined.





(** ** The select box and the encoding of paths *)

Lemma py_in_In (x : string) (l : list string) : py_in x l = true <-> In x l.
Proof.
  unfold py_in. rewrite existsb_exists. split.
  - intros (y & Hin & Heq). apply String.eqb_eq in Heq. subst y. exact Hin.
  - intros Hin. exists x. split; [exact Hin|apply String.eqb_refl].
Qed.

Lemma py_index_first (x : string) (l : list string) :
  In x l ->
  exists i,
    py_index x l = Some i
    /\ l !! i = Some x
    /\ forall j, (j < i)%nat -> l !! j <> Some x.
Proof.
  induction l as [|y rest IH]; intros Hin; [destruct Hin|].
  cbn [py_index]. destruct (String.eqb y x) eqn:Heq.
  - apply String.eqb_eq in Heq. subst y. exists O.
    repeat split. intros j Hj. lia.
  - apply String.eqb_neq in Heq.
    destruct Hin as [Hhead|Htail]; [contradiction|].
    destruct (IH Htail) as (i & -> & Hi & Hfirst).
    exists (S i). repeat split; [exact Hi|].
    intros [|j] Hj; cbn; [congruence|apply Hfirst; lia].
Qed.

(** X14: the index that [main] hands to the select box is always defined
    ([list.index] is never asked for a missing name) and, for a list that is
    not empty, within the list; it is the first position of the selected
    file when that file is listed, and 0 otherwise. *)
Theorem selectbox_index_in_range (audio_files : list string)
    (selected_file : option string) :
  exists i,
    selectbox_index audio_files selected_file = Some i
    /\ (audio_files <> [] -> (i < length audio_files)%nat)
    /\ (forall name,
          selected_file = Some name -> In name audio_files ->
          audio_files !! i = Some name
          /\ forall j, (j < i)%nat -> audio_files !! j <> Some name)
    /\ ((forall name, selected_file = Some name -> ~ In name audio_files) ->
        i = O).
Proof.
  assert (Hzero : audio_files <> [] -> (0 < length audio_files)%nat).
  { destruct audio_files; [congruence|cbn; lia]. }
  destruct selected_file as [name|]; cbn [selectbox_index].
  - destruct (py_in name audio_files) eqn:Hin.
    + apply py_in_In in Hin.
      destruct (py_index_first name audio_files Hin) as (i & Hi & Hat & Hfirst).
      exists i. split; [exact Hi|]. split; [|split].
      * intros _. apply lookup_lt_Some in Hat. exact Hat.
      * intros n [= <-] _. split; assumption.
      * intros Hnot. exfalso. exact (Hnot name eq_refl Hin).
    + exists O. split; [reflexivity|]. split; [exact Hzero|]. split.
      * intros n [= <-] Hn. apply py_in_In in Hn. congruence.
      * reflexivity.
  - exists O. split; [reflexivity|]. split; [exact Hzero|]. split.
    + intros n [=].
    + reflexivity.
Qed.

Lemma percent_encoded_url_safe (a : ascii) :
  all_chars is_url_safe (percent_encoded a) = true.
Proof. destruct a as [[] [] [] [] [] [] [] []]; reflexivity. Qed.

Lemma all_chars_app (P : ascii -> bool) (a b : string) :
  all_chars P (a +:+ b) = all_chars P a && all_chars P b.
Proof.
  induction a as [|x a IH]; [reflexivity|].
  change (String x a +:+ b) with (String x (a +:+ b)).
  cbn [all_chars]. rewrite IH, andb_assoc. reflexivity.
Qed.

(** What [quote] returns holds nothing but letters, digits, [_.-~], slashes
    and percent signs; a string of letters, digits, [_.-~] and slashes is
    left as it is. *)
Lemma quote_all_url_safe (s : string) :
  all_chars is_url_safe (quote s) = true
  /\ (all_chars (fun a => is_always_safe a || Ascii.eqb a slash) s = true ->
      quote s = s).
Proof.
  split.
  - induction s as [|a s IH]; [reflexivity|].
    cbn [quote]. destruct (is_always_safe a || Ascii.eqb a slash) eqn:Hsafe.
    + cbn [all_chars]. rewrite IH. unfold is_url_safe. rewrite Hsafe.
      reflexivity.
    + rewrite all_chars_app, percent_encoded_url_safe, IH. reflexivity.
  - induction s as [|a s IH]; [reflexivity|].
    cbn [all_chars quote]. intros Hall.
    apply andb_true_iff in Hall as [Ha Hs]. rewrite Ha, (IH Hs). reflexivity.
Qed.

Lemma nat_of_hex_digit (n : nat) :
  (n < 16)%nat ->
  nat_of_ascii (hex_digit n) = if (n <? 10)%nat then (48 + n)%nat else (55 + n)%nat.
Proof.
  intros Hn. unfold hex_digit.
  destruct (n <? 10)%nat; apply nat_ascii_embedding; lia.
Qed.

Lemma hex_digit_inj (n m : nat) :
  (n < 16)%nat -> (m < 16)%nat -> hex_digit n = hex_digit m -> n = m.
Proof.
  intros Hn Hm Heq. apply (f_equal nat_of_ascii) in Heq.
  rewrite !nat_of_hex_digit in Heq by assumption.
  destruct (n <? 10)%nat eqn:H1; destruct (m <? 10)%nat eqn:H2;
    rewrite ?Nat.ltb_lt, ?Nat.ltb_ge in *; lia.
Qed.

Lemma percent_encoded_inj (a b : ascii) :
  percent_encoded a = percent_encoded b -> a = b.
Proof.
  unfold percent_encoded.
  remember (nat_of_ascii a / 16)%nat as ha eqn:Eha.
  remember (nat_of_ascii a mod 16)%nat as la eqn:Ela.
  remember (nat_of_ascii b / 16)%nat as hb eqn:Ehb.
  remember (nat_of_ascii b mod 16)%nat as lb eqn:Elb.
  intros [= Hhi Hlo]. subst ha la hb lb.
  pose proof (nat_ascii_bounded a) as Ha.
  pose proof (nat_ascii_bounded b) as Hb.
  apply hex_digit_inj in Hhi;
    [|apply Nat.Div0.div_lt_upper_bound; lia
     |apply Nat.Div0.div_lt_upper_bound; lia].
  apply hex_digit_inj in Hlo;
    [|apply Nat.mod_upper_bound; lia|apply Nat.mod_upper_bound; lia].
  rewrite <- (ascii_nat_embedding a), <- (ascii_nat_embedding b).
  f_equal.
  rewrite (Nat.div_mod_eq (nat_of_ascii a) 16),
    (Nat.div_mod_eq (nat_of_ascii b) 16).
  congruence.
Qed.

Lemma percent_encoded_app_inj (a b : ascii) (x y : string) :
  percent_encoded a +:+ x = percent_encoded b +:+ y -> a = b /\ x = y.
Proof.
  intros H.
  assert (Hsplit : percent_encoded a = percent_encoded b /\ x = y).
  { revert H. unfold percent_encoded.
    remember (hex_digit (nat_of_ascii a / 16)) as ha.
    remember (hex_digit (nat_of_ascii a mod 16)) as la.
    remember (hex_digit (nat_of_ascii b / 16)) as hb.
    remember (hex_digit (nat_of_ascii b mod 16)) as lb.
    change (String "%" (String ha (String la x))
            = String "%" (String hb (String lb y))
            -> String "%" (String ha (String la ""))
               = String "%" (String hb (String lb "")) /\ x = y).
    intros [= -> -> ->]. split; reflexivity. }
  destruct Hsplit as [Hab Hxy]. split; [exact (percent_encoded_inj a b Hab)|exact Hxy].
Qed.

(** [quote] keeps strings apart. *)
Lemma quote_inj (s t : string) : quote s = quote t -> s = t.
Proof.
  revert t. induction s as [|a s IH]; intros [|b t].
  - reflexivity.
  - cbn [quote]. destruct (is_always_safe b || Ascii.eqb b slash);
      discriminate.
  - cbn [quote]. destruct (is_always_safe a || Ascii.eqb a slash);
      discriminate.
  - cbn [quote].
    destruct (is_always_safe a || Ascii.eqb a slash) eqn:Ha;
      destruct (is_always_safe b || Ascii.eqb b slash) eqn:Hb.
    + intros [= -> Hrest]. f_equal. apply IH. exact Hrest.
    + unfold percent_encoded.
      change (String a (quote s) = String "%" (String
                (hex_digit (nat_of_ascii b / 16))
                (String (hex_digit (nat_of_ascii b mod 16)) (quote t)))
              -> String a s = String b t).
      intros [= -> _]. discriminate.
    + unfold percent_encoded.
      change (String "%" (String (hex_digit (nat_of_ascii a / 16))
                (String (hex_digit (nat_of_ascii a mod 16)) (quote s)))
              = String b (quote t) -> String a s = String b t).
      intros [= <- _]. discriminate.
    + intros H. apply percent_encoded_app_inj in H as [-> Hrest].
      rewrite (IH t Hrest). reflexivity.
Qed.

Lemma append_inj_l (a x y : string) : a +:+ x = a +:+ y -> x = y.
Proof.
  induction a as [|c a IH]; [exact id|].
  change (String c (a +:+ x) = String c (a +:+ y) -> x = y).
  intros [= H]. exact (IH H).
Qed.

(** X15: the paths that [main] puts into its URLs, the directory for the
    listing and the file path for the player, hold nothing but letters,
    digits, [_.-~], slashes and percent signs after [quote]: no space, [?]
    or [#] of a name reaches the URL.  A file path of letters, digits,
    [_.-~] and slashes goes into the URL as it is. *)
Theorem encoded_paths_url_safe (path selected_file : string) :
  all_chars is_url_safe (quote path) = true
  /\ all_chars is_url_safe (encoded_file_path path selected_file) = true
  /\ (all_chars (fun a => is_always_safe a || Ascii.eqb a slash)
        (selected_file_path path selected_file) = true ->
      encoded_file_path path selected_file
      = selected_file_path path selected_file).
Proof.
  split; [apply quote_all_url_safe|]. split; apply quote_all_url_safe.
Qed.

(** X16: two files of one directory never share an encoded path: if the
    encoded file paths of two selected names are equal, the names are. *)
Theorem encoded_file_path_distinct (path name1 name2 : string) :
  encoded_file_path path name1 = encoded_file_path path name2 ->
  name1 = name2.
Proof.
  unfold encoded_file_path, selected_file_path. intros H.
  apply quote_inj in H. destruct (String.eqb path ""); [exact H|].
  exact (append_inj_l "/" _ _ (append_inj_l path _ _ H)).
Qed.

Lemma encoded_file_path_distinct_witness :
  "my song.mp3" = "my song.mp3".
Proof.
  exact (encoded_file_path_distinct "live 2020" "my song.mp3" "my song.mp3"
           eq_refl).
Defined.

(** ** The suffix test of the listing *)

Lemma slice_from_suffix (n : nat) (s suf : string) :
  slice_from n s = suf -> (n <= String.length s)%nat ->
  exists pre, s = pre +:+ suf.
Proof.
  revert s. induction n as [|n IH]; intros s Hslice Hlen.
  - exists "". exact Hslice.
  - destruct s as [|a s]; [cbn in Hlen; lia|].
    cbn [slice_from String.length] in *.
    destruct (IH s Hslice ltac:(lia)) as [pre ->].
    exists (String a pre). reflexivity.
Qed.

Lemma endswith_suffix (s suf : string) :
  endswith s suf = true -> exists pre, s = pre +:+ suf.
Proof.
  unfold endswith. intros H. apply andb_true_iff in H as [Hlen Heq].
  apply Nat.leb_le in Hlen. apply String.eqb_eq in Heq.
  apply (slice_from_suffix _ _ _ Heq). lia.
Qed.

Lemma lower_ascii_idempotent (a : ascii) :
  lower_ascii (lower_ascii a) = lower_ascii a.
Proof. destruct a as [[] [] [] [] [] [] [] []]; reflexivity. Qed.

Lemma lower_idempotent (s : string) : lower (lower s) = lower s.
Proof.
  induction s as [|a s IH]; [reflexivity|].
  cbn [lower]. rewrite lower_ascii_idempotent, IH. reflexivity.
Qed.

(** X17: every name that the comprehension lists, once lower-cased, is some
    text followed by one of [.mp3], [.wav], [.ogg], [.flac], [.m4a].  The
    test does not see the case of the letters: an object whose type is
    "file" is listed under its name exactly when it would be under the
    lower-cased name, and it is listed with the case it has. *)
Theorem listed_names_have_audio_suffix (contents names : list json) :
  audio_files_of contents = inr names ->
  (forall v, In v names ->
     exists name stem ext,
       v = JStr name
       /\ In ext [".mp3"; ".wav"; ".ogg"; ".flac"; ".m4a"]
       /\ lower name = stem +:+ ext)
  /\ (forall name,
        is_audio_item (entry name "file")
        = is_audio_item (entry (lower name) "file")
        /\ (is_audio_item (entry name "file") = inr true ->
            audio_files_of [entry name "file"] = inr [JStr name])).
Proof.
  intros Hrun. split.
  - intros v Hv.
    destruct (audio_files_of_members contents names Hrun) as [_ Hin].
    destruct (Hin v Hv) as (d & name & -> & _ & _ & _ & Hext).
    unfold endswith_any in Hext. apply existsb_exists in Hext.
    destruct Hext as (ext & Hmem & Hends).
    destruct (endswith_suffix _ _ Hends) as [stem Hstem].
    exists name, stem, ext. repeat split; assumption.
  - intros name. split.
    + cbn. rewrite lower_idempotent. reflexivity.
    + cbn. intros [= Hkeep]. rewrite Hkeep. reflexivity.
Qed.

Lemma listed_names_have_audio_suffix_witness :
  exists name stem ext,
    JStr "B.OGG" = JStr name
    /\ In ext [".mp3"; ".wav"; ".ogg"; ".flac"; ".m4a"]
    /\ lower name = stem +:+ ext.
Proof.
  refine (proj1 (listed_names_have_audio_suffix plain_array
                   [JStr "a.mp3"; JStr "B.OGG"] eq_refl) (JStr "B.OGG") _).
  right. left. reflexivity.
Defined.
